(** * hodarchive: submitting jobs from a CSV to HoD Archive and tracking them

    A shallow embedding of [hodarchive/hodarchive.py].  The remote service is
    an oracle answering the n-th HTTP exchange of a run; everything the
    program does to the outside (requests, sleeps, printed notices) is
    recorded in a trace, and the deque of jobs in progress is part of the
    machine state because the program mutates it in place. *)

From stdpp Require Import gmap strings list fin_maps.
From Stdlib Require Import ZArith Ascii String.

Set Warnings "-register-all".
Open Scope string_scope.
Open Scope list_scope.

(** ** Text: the [str] methods the program calls

    A character is a code point below 256. *)

Module Text.

(** [str.lower] on one code point below 256: A-Z and the Latin-1 capitals
    (all of 0xC0-0xDE but the multiplication sign) move up by 32. *)
Definition lower_char (c : ascii) : ascii :=
  let n := N_of_ascii c in
  if ((65 <=? n) && (n <=? 90) || (192 <=? n) && (n <=? 214)
      || (216 <=? n) && (n <=? 222))%N
  then ascii_of_N (n + 32) else c.

Fixpoint lower (s : string) : string :=
  match s with
  | EmptyString => EmptyString
  | String c s' => String (lower_char c) (lower s')
  end.

(** [s.replace(c, '')] for a one-character [c]. *)
Fixpoint remove_char (c : ascii) (s : string) : string :=
  match s with
  | EmptyString => EmptyString
  | String d s' =>
      if Ascii.eqb d c then remove_char c s' else String d (remove_char c s')
  end.

(** The white space [int] skips around a number, among the code points
    below 256: tab to carriage return, the space, and the two above 127 that
    are spaces (next line, no-break space). *)
Definition is_int_space (c : ascii) : bool :=
  let n := N_of_ascii c in
  ((9 <=? n) && (n <=? 13) || (n =? 32) || (n =? 133) || (n =? 160))%N.

Fixpoint skip_spaces (s : string) : string :=
  match s with
  | String c s' => if is_int_space c then skip_spaces s' else s
  | EmptyString => EmptyString
  end.

Definition trim (s : string) : string :=
  String.rev (skip_spaces (String.rev (skip_spaces s))).

Definition digit_value (c : ascii) : option Z :=
  let n := N_of_ascii c in
  if ((48 <=? n) && (n <=? 57))%N then Some (Z.of_N n - 48)%Z else None.

(** The digits of a decimal literal: groups of digits, single underscores
    allowed between two digits only. *)
Fixpoint digits_value (acc : Z) (after_digit : bool) (s : string) : option Z :=
  match s with
  | EmptyString => if after_digit then Some acc else None
  | String c s' =>
      if Ascii.eqb c "_" then
        if after_digit then digits_value acc false s' else None
      else
        match digit_value c with
        | Some d => digits_value (10 * acc + d)%Z true s'
        | None => None
        end
  end.

(** The built-in [int(s)] on a [str], base 10: white space around, one
    sign, digits with single underscores between them.  [None] stands for
    [ValueError]; the cap that recent interpreters put on the number of
    digits is outside the model. *)
Definition py_int (s : string) : option Z :=
  match trim s with
  | String "-" s' => Z.opp <$> digits_value 0 false s'
  | String "+" s' => digits_value 0 false s'
  | s' => digits_value 0 false s'
  end.

End Text.

Import Text.

(** ** Values: what [json.loads] and [csv.DictReader] hand to the program *)

Inductive pyval : Type :=
  | PNone
  | PBool (b : bool)
  | PInt (z : Z)
  | PFloat (literal : string)
  | PStr (s : string)
  | PList (l : list pyval)
  | PDict (d : gmap string pyval).

(** The body of a response as [read_response_body] tells them apart: no
    content, content that parses as JSON, any other text. *)
Inductive Content : Type :=
  | NoContent
  | Json (v : pyval)
  | Text (s : string).

(** A [requests.Response].  [headers] is a case-insensitive dict: it is
    keyed by the lower-cased header name. *)
Record Response : Type := mkResponse {
  status_code : Z;
  reason : string;
  headers : gmap string string;
  content : Content
}.

Inductive exn : Type :=
  | HTTPError (response : Response)
  | KeyError (key : string)
  | TypeError
  | ValueError
  | AttributeError
  | IndexError.

(** The outcome of running a piece of the program: a value, an exception
    on its way up, or the loop budget of the model used up. *)
Inductive result (A : Type) : Type :=
  | Ok (a : A)
  | Exn (e : exn)
  | OutOfFuel.
Arguments Ok {A} a.
Arguments Exn {A} e.
Arguments OutOfFuel {A}.

(** [v[key]] with a [str] key. *)
Definition subscript (v : pyval) (key : string) : result pyval :=
  match v with
  | PDict d =>
      match d !! key with
      | Some x => Ok x
      | None => Exn (KeyError key)
      end
  | _ => Exn TypeError
  end.

(** [v.get(key, default)]. *)
Definition dict_get (v : pyval) (key : string) (dflt : pyval) : result pyval :=
  match v with
  | PDict d => Ok (default dflt (d !! key))
  | _ => Exn AttributeError
  end.

(** ['literal' == v]. *)
Definition str_eq (literal : string) (v : pyval) : bool :=
  match v with
  | PStr s => String.eqb literal s
  | _ => false
  end.

(** ** The request source: rows, header names, [ArchiveRequest] *)

Record ArchiveRequest : Type := mkArchiveRequest {
  start_date_time : pyval;
  end_date_time : pyval;
  location : pyval;
  format : pyval;
  units : pyval;
  results_location : pyval
}.

Definition ArchiveRequest_fields : list string :=
  ["start_date_time"; "end_date_time"; "location"; "format"; "units";
   "results_location"].

(** [ArchiveRequest] called with keyword arguments: a keyword that is not a
    field, or a field without a keyword, is a [TypeError]. *)
Definition new_ArchiveRequest (kwargs : gmap string pyval) : result ArchiveRequest :=
  if decide (map_Forall (λ k _, k ∈ ArchiveRequest_fields) kwargs) then
    match
      (a ← kwargs !! "start_date_time"; b ← kwargs !! "end_date_time";
       c ← kwargs !! "location"; d ← kwargs !! "format";
       e ← kwargs !! "units"; f ← kwargs !! "results_location";
       Some (mkArchiveRequest a b c d e f))
    with
    | Some req => Ok req
    | None => Exn TypeError
    end
  else Exn TypeError.

(** The spelling table of [normalize_key]. *)
Definition canonical_names : gmap string string :=
  <["startdatetime" := "start_date_time"]>
    (<["enddatetime" := "end_date_time"]>
       (<["resultslocation" := "results_location"]> ∅)).

Definition normalize_key (key : string) : string :=
  let key := remove_char " " (remove_char "-" (remove_char "_" (lower key))) in
  default key (canonical_names !! key).

(** A CSV record as [csv.DictReader] yields it: the items of a [dict] from
    header names to cells, in column order. *)
Definition Row : Type := list (string * pyval).

Definition normalized_row (row : Row) : gmap string pyval :=
  foldl (λ m kv, <[normalize_key kv.1 := kv.2]> m) ∅ row.

Definition to_request (row : Row) : result ArchiveRequest :=
  new_ArchiveRequest (normalized_row row).

(** ** The machine: remote service, trace, jobs in progress *)

Record Job : Type := mkJob {
  line_number : nat;
  request : ArchiveRequest;
  info : pyval
}.

Definition set_info (job : Job) (v : pyval) : Job :=
  mkJob (line_number job) (request job) v.

(** The two calls the program makes, with what it sends. *)
Inductive Request : Type :=
  | PostArchive (api_key : string) (req : ArchiveRequest)
  | GetActivity (api_key : string) (job_id : pyval).

(** What the program does to the outside, in the order it does it. *)
Inductive Event : Type :=
  | Sent (rq : Request)
  | Slept (seconds : Z)
  | JobSubmitted (job_id : pyval) (line : nat)
  | JobComplete (job_id rows_returned usage : pyval)
  | JobErrored (job_id error : pyval)
  | ErrorReported (status : Z) (why : string) (body : pyval)
  | Results (jobs_run errors : nat).

(** [exchanges] counts the HTTP exchanges made so far, [trace] has the latest
    event first, [jobs_in_progress] is the deque of [run_jobs], leftmost job
    first. *)
Record World : Type := mkWorld {
  exchanges : nat;
  trace : list Event;
  jobs_in_progress : list Job
}.

Definition initial_world : World := mkWorld 0 [] [].

Definition log (ev : Event) (w : World) : World :=
  mkWorld (exchanges w) (ev :: trace w) (jobs_in_progress w).

Definition exchanged (rq : Request) (w : World) : World :=
  mkWorld (S (exchanges w)) (Sent rq :: trace w) (jobs_in_progress w).

Definition with_jobs (jobs : list Job) (w : World) : World :=
  mkWorld (exchanges w) (trace w) jobs.

(** The remote service: its answer to the n-th exchange of the run. *)
Definition Service : Type := nat → Request → Response.

Definition M (A : Type) : Type := World → result A * World.

Definition ret {A} (a : A) : M A := λ w, (Ok a, w).

Definition bind {A B} (m : M A) (k : A → M B) : M B :=
  λ w, match m w with
       | (Ok a, w') => k a w'
       | (Exn e, w') => (Exn e, w')
       | (OutOfFuel, w') => (OutOfFuel, w')
       end.

Definition raise {A} (e : exn) : M A := λ w, (Exn e, w).

Definition out_of_fuel {A} : M A := λ w, (OutOfFuel, w).

Definition lift {A} (r : result A) : M A := λ w, (r, w).

(** [try: m / except requests.HTTPError as e: handler e.response]. *)
Definition try_except_HTTPError {A} (m : M A) (handler : Response → M A) : M A :=
  λ w, match m w with
       | (Exn (HTTPError response), w') => handler response w'
       | other => other
       end.

Notation "x <- m ;; k" := (bind m (λ x, k))
  (at level 100, m at next level, right associativity, only parsing).
Notation "m ;;; k" := (bind m (λ _, k))
  (at level 100, right associativity, only parsing).

Definition emit (ev : Event) : M unit := λ w, (Ok tt, log ev w).

(** [time.sleep] of a whole number of seconds: a negative length is a
    [ValueError].  Lengths beyond what the timer of the platform holds are
    outside the model. *)
Definition sleep (seconds : Z) : M unit :=
  if (seconds <? 0)%Z then raise ValueError else emit (Slept seconds).

(** [jobs.appendleft(job)]. *)
Definition appendleft (job : Job) : M unit :=
  λ w, (Ok tt, with_jobs (job :: jobs_in_progress w) w).

(** [jobs.pop()]: the rightmost job; [IndexError] on an empty deque. *)
Definition pop : M Job :=
  λ w, match last (jobs_in_progress w) with
       | Some job => (Ok job, with_jobs (removelast (jobs_in_progress w)) w)
       | None => (Exn IndexError, w)
       end.

Definition len_jobs : M nat :=
  λ w, (Ok (List.length (jobs_in_progress w)), w).

Definition read_response_body (response : Response) : pyval :=
  match content response with
  | NoContent => PNone
  | Json v => v
  | Text s => PStr s
  end.

(** The responses [raise_for_status] raises for: 4xx and 5xx. *)
Definition is_http_error (response : Response) : bool :=
  ((400 <=? status_code response) && (status_code response <? 600))%Z.

Definition raise_for_status (response : Response) : M unit :=
  if is_http_error response then raise (HTTPError response) else ret tt.

(** [headers.get(name, default)]. *)
Definition headers_get (h : gmap string string) (name dflt : string) : string :=
  default dflt (h !! lower name).

Section Program.

Variable service : Service.

(** [requests.post] and [requests.get]: one exchange with the service. *)
Definition send (rq : Request) : M Response :=
  λ w, (Ok (service (exchanges w) rq), exchanged rq w).

Definition post (api_key : string) (req : ArchiveRequest) : M pyval :=
  response <- send (PostArchive api_key req) ;;
  raise_for_status response ;;;
  let body := read_response_body response in
  lift (subscript body "job").

Fixpoint post_with_retry (fuel : nat) (api_key : string) (req : ArchiveRequest)
  : M pyval :=
  match fuel with
  | O => out_of_fuel
  | S fuel' =>
      attempt <- try_except_HTTPError
                   (v <- post api_key req ;; ret (inl v))
                   (λ response, ret (inr response)) ;;
      match attempt with
      | inl v => ret v
      | inr response =>
          if (status_code response =? 429)%Z then
            match py_int (headers_get (headers response) "Retry-After" "10") with
            | Some seconds => sleep seconds ;;; post_with_retry fuel' api_key req
            | None => raise ValueError
            end
          else raise (HTTPError response)
      end
  end.

Definition get_status (api_key : string) (job_id : pyval) : M pyval :=
  response <- send (GetActivity api_key job_id) ;;
  raise_for_status response ;;;
  ret (read_response_body response).

Definition notify_job_submitted (job : Job) : M unit :=
  job_id <- lift (subscript (info job) "jobId") ;;
  emit (JobSubmitted job_id (line_number job)).

Definition notify_job_complete (job : Job) : M unit :=
  job_id <- lift (subscript (info job) "jobId") ;;
  rows_returned <- lift (dict_get (info job) "rowsReturned" (PInt 0)) ;;
  usage <- lift (dict_get (info job) "usage" (PInt 0)) ;;
  emit (JobComplete job_id rows_returned usage).

Definition notify_job_errored (job : Job) : M unit :=
  job_id <- lift (subscript (info job) "jobId") ;;
  error <- lift (subscript (info job) "error") ;;
  emit (JobErrored job_id error).

Definition handle_error (response : Response) : M unit :=
  let body := read_response_body response in
  emit (ErrorReported (status_code response) (reason response) body).

(** One turn of the loop of [clean_completed]: the counts it is given are
    the counts so far. *)
Definition clean_one (api_key : string) (counts : nat * nat) : M (nat * nat) :=
  job <- pop ;;
  job_id <- lift (subscript (info job) "jobId") ;;
  snapshot <- get_status api_key job_id ;;
  let job := set_info job snapshot in
  status <- lift (subscript (info job) "jobStatus") ;;
  if str_eq "complete" status then
    notify_job_complete job ;;; ret (S counts.1, counts.2)
  else if str_eq "error" status then
    notify_job_errored job ;;; ret (counts.1, S counts.2)
  else
    appendleft job ;;; ret counts.

Fixpoint clean_loop (api_key : string) (turns : nat) (counts : nat * nat)
  : M (nat * nat) :=
  match turns with
  | O => ret counts
  | S turns' =>
      counts' <- clean_one api_key counts ;;
      clean_loop api_key turns' counts'
  end.

(** [range(len(jobs))] is fixed when the loop starts. *)
Definition clean_completed (api_key : string) : M (nat * nat) :=
  turns <- len_jobs ;;
  clean_loop api_key turns (0, 0).

(** The generator [yield_jobs]: one suspended step per record, run when the
    driver asks for the next job. *)
Definition yield_job (index : nat) (row : Row) : M Job :=
  let row_number := index + 1 in
  request <- lift (to_request row) ;;
  ret (mkJob row_number request (PDict ∅)).

Fixpoint yield_jobs_from (index : nat) (jobs_csv : list Row) : list (M Job) :=
  match jobs_csv with
  | [] => []
  | row :: rest => yield_job index row :: yield_jobs_from (S index) rest
  end.

Definition yield_jobs (jobs_csv : list Row) : list (M Job) :=
  yield_jobs_from 0 jobs_csv.

(** [jobs_in_progress = deque()]. *)
Definition new_deque : M unit := λ w, (Ok tt, with_jobs [] w).

(** The body of the [for] loop of [run_jobs], [try] and [except] included;
    [counts] is [(completions, errors)]. *)
Definition submit_and_clean (fuel : nat) (api_key : string) (job : Job)
    (counts : nat * nat) : M (nat * nat) :=
  try_except_HTTPError
    (snapshot <- post_with_retry fuel api_key (request job) ;;
     let job := set_info job snapshot in
     notify_job_submitted job ;;;
     appendleft job ;;;
     new <- clean_completed api_key ;;
     ret (counts.1 + new.1, counts.2 + new.2))
    (λ response,
       handle_error response ;;;
       ret (counts.1, counts.2 + 1)).

Fixpoint submit_all (fuel : nat) (api_key : string) (jobs : list (M Job))
    (counts : nat * nat) : M (nat * nat) :=
  match jobs with
  | [] => ret counts
  | next :: rest =>
      job <- next ;;
      counts' <- submit_and_clean fuel api_key job counts ;;
      submit_all fuel api_key rest counts'
  end.

(** The [while jobs_in_progress] loop. *)
Fixpoint drain (fuel : nat) (api_key : string) (counts : nat * nat)
  : M (nat * nat) :=
  match fuel with
  | O => out_of_fuel
  | S fuel' =>
      n <- len_jobs ;;
      match n with
      | O => ret counts
      | S _ =>
          new <- clean_completed api_key ;;
          sleep 10 ;;;
          drain fuel' api_key (counts.1 + new.1, counts.2 + new.2)
      end
  end.

(** The counting part of [run_jobs]: everything before the summary. *)
Definition run_counts (fuel : nat) (api_key : string) (jobs_csv : list Row)
  : M (nat * nat) :=
  new_deque ;;;
  counts <- submit_all fuel api_key (yield_jobs jobs_csv) (0, 0) ;;
  drain fuel api_key counts.

Definition run_jobs (fuel : nat) (api_key : string) (jobs_csv : list Row)
  : M unit :=
  counts <- run_counts fuel api_key jobs_csv ;;
  emit (Results (counts.1 + counts.2) counts.2).

End Program.

(** ** Vocabulary of the statements *)

(** The first step of [normalize_key]: lower case, separators dropped. *)
Definition squeeze (key : string) : string :=
  remove_char " " (remove_char "-" (remove_char "_" (lower key))).

Definition is_separator (c : ascii) : bool :=
  Ascii.eqb c "_" || Ascii.eqb c "-" || Ascii.eqb c " ".


(** The set of normalized header names of a record. *)
Definition header_names (row : Row) : gset string :=
  list_to_set ((λ kv, normalize_key kv.1) <$> row).

Definition required_fields : gset string := list_to_set ArchiveRequest_fields.

(** The seconds a rate-limited response asks the caller to wait: those of
    its Retry-After header, 10 without one. *)
Definition retry_after_seconds (response : Response) : option Z :=
  match headers response !! "retry-after" with
  | Some s => py_int s
  | None => Some 10%Z
  end.

(** The rate-limit signal [RateLimited{seconds}] of the spec. *)
Definition rate_limited (response : Response) (seconds : Z) : Prop :=
  status_code response = 429%Z ∧
  retry_after_seconds response = Some seconds ∧
  (0 ≤ seconds)%Z.

(** The world after a request was sent and waited for, once per wait. *)
Definition after_waits (rq : Request) (waits : list Z) (w : World) : World :=
  foldl (λ w seconds, log (Slept seconds) (exchanged rq w)) w waits.

(** How a sweep reads the status of a snapshot. *)
Inductive Verdict : Type := Completed | Errored | Pending.

Definition verdict (snapshot : pyval) : option Verdict :=
  match subscript snapshot "jobStatus" with
  | Ok status =>
      Some (if str_eq "complete" status then Completed
            else if str_eq "error" status then Errored
            else Pending)
  | _ => None
  end.


(** The notices a snapshot gives rise to, when it has the fields they
    print. *)
Definition completion_notice (snapshot : pyval) : option Event :=
  match snapshot with
  | PDict d =>
      job_id ← d !! "jobId";
      Some (JobComplete job_id (default (PInt 0) (d !! "rowsReturned"))
                        (default (PInt 0) (d !! "usage")))
  | _ => None
  end.

Definition error_notice (snapshot : pyval) : option Event :=
  match snapshot with
  | PDict d =>
      job_id ← d !! "jobId"; error ← d !! "error";
      Some (JobErrored job_id error)
  | _ => None
  end.

(** One poll of a sweep: the job polled, the job id asked for, the snapshot
    received, how the sweep read it and the notice it printed. *)
Record Poll : Type := mkPoll {
  polled : Job;
  asked : pyval;
  snapshot : pyval;
  outcome : Verdict;
  notice : option Event
}.

Definition expected_notice (v : Verdict) (snapshot : pyval) : option Event :=
  match v with
  | Completed => completion_notice snapshot
  | Errored => error_notice snapshot
  | Pending => None
  end.

(** [p] is what polling [polled p] in exchange [n] amounts to, the poll
    being answered with success and the notice, if any, printed. *)
Definition well_polled (service : Service) (key : string) (n : nat) (p : Poll)
  : Prop :=
  subscript (info (polled p)) "jobId" = Ok (asked p) ∧
  is_http_error (service n (GetActivity key (asked p))) = false ∧
  snapshot p = read_response_body (service n (GetActivity key (asked p))) ∧
  verdict (snapshot p) = Some (outcome p) ∧
  notice p = expected_notice (outcome p) (snapshot p) ∧
  (outcome p ≠ Pending → is_Some (notice p)).

(** The events of one poll, in the order they happen. *)
Definition poll_events (key : string) (p : Poll) : list Event :=
  Sent (GetActivity key (asked p)) :: option_list (notice p).

Definition is_outcome (v : Verdict) (p : Poll) : bool :=
  match v, outcome p with
  | Completed, Completed | Errored, Errored | Pending, Pending => true
  | _, _ => false
  end.

(** The jobs a sweep puts back, each with its new snapshot. *)
Definition requeued (polls : list Poll) : list Job :=
  (λ p, set_info (polled p) (snapshot p)) <$> filter (is_outcome Pending) polls.

Definition tally (v : Verdict) (polls : list Poll) : nat :=
  List.length (filter (is_outcome v) polls).

(** The requests among some events. *)
Definition requests (events : list Event) : list Request :=
  omap (λ ev, match ev with Sent rq => Some rq | _ => None end) events.

(** The completion notices among some events. *)
Definition is_completion_notice (ev : Event) : bool :=
  match ev with
  | JobComplete _ _ _ => true
  | _ => false
  end.

Definition completion_notices (events : list Event) : list Event :=
  filter is_completion_notice events.

(** The counts after a poll read as [v]. *)
Definition bump (v : Verdict) (counts : nat * nat) : nat * nat :=
  match v with
  | Completed => (S counts.1, counts.2)
  | Errored => (counts.1, S counts.2)
  | Pending => counts
  end.

(** The report of [handle_error]. *)
Definition reported (response : Response) : Event :=
  ErrorReported (status_code response) (reason response)
                (read_response_body response).

(** The world once [job], with the snapshot of its submission, has been
    announced and put in the deque. *)
Definition enqueued (job : Job) (snap job_id : pyval) (w : World) : World :=
  with_jobs (set_info job snap :: jobs_in_progress w)
            (log (JobSubmitted job_id (line_number job)) w).

(** No poll is answered with a failure. *)
Definition polls_succeed (service : Service) (key : string) : Prop :=
  ∀ n job_id, is_http_error (service n (GetActivity key job_id)) = false.

(** A submission answered with success and a job that has an id. *)
Definition good_submit (response : Response) : Prop :=
  is_http_error response = false ∧
  ∃ snap job_id,
    subscript (read_response_body response) "job" = Ok snap ∧
    subscript snap "jobId" = Ok job_id.

(** A poll answered with success and a snapshot that has a job id and a
    status other than ['error']. *)
Definition good_poll (response : Response) : Prop :=
  is_http_error response = false ∧
  (∃ job_id, subscript (read_response_body response) "jobId" = Ok job_id) ∧
  (verdict (read_response_body response) = Some Completed ∨
   verdict (read_response_body response) = Some Pending).

(** A service that never rate-limits, never fails and never reports an
    error status, and that reports every job complete from exchange
    [bound] on. *)
Definition obliging (service : Service) (key : string) (bound : nat) : Prop :=
  (∀ n req, good_submit (service n (PostArchive key req))) ∧
  (∀ n job_id, good_poll (service n (GetActivity key job_id))) ∧
  (∀ n job_id, (bound ≤ n)%nat →
     verdict (read_response_body (service n (GetActivity key job_id)))
     = Some Completed).

(** Every job in progress has a job id. *)
Definition identified (w : World) : Prop :=
  Forall (λ job, ∃ job_id, subscript (info job) "jobId" = Ok job_id)
         (jobs_in_progress w).

(** Every record converts to a request. *)
Definition well_formed (rows : list Row) : Prop :=
  Forall (λ row, ∃ req, to_request row = Ok req) rows.

(** The request of the poll of a job. *)
Definition poll_of (key : string) (rq : Request) (job : Job) : Prop :=
  ∃ job_id, subscript (info job) "jobId" = Ok job_id ∧
            rq = GetActivity key job_id.

(** ** Scenarios: rows, responses and services to run the program on *)

Definition sample_row : Row :=
  [("startDateTime", PStr "2022-01-01"); ("endDateTime", PStr "2022-01-02");
   ("location", PStr "40,-74"); ("format", PStr "json"); ("units", PStr "e");
   ("resultsLocation", PStr "s3://bucket/out")].

Definition sample_request : ArchiveRequest :=
  mkArchiveRequest (PStr "2022-01-01") (PStr "2022-01-02") (PStr "40,-74")
                   (PStr "json") (PStr "e") (PStr "s3://bucket/out").

Definition dict (items : list (string * pyval)) : pyval :=
  PDict (list_to_map items).

Definition ok_json (v : pyval) : Response := mkResponse 200 "OK" ∅ (Json v).

Definition job_snapshot (job_id status : string) : pyval :=
  dict [("jobId", PStr job_id); ("jobStatus", PStr status)].

Definition accepted (job_id status : string) : Response :=
  ok_json (dict [("job", job_snapshot job_id status)]).

Definition server_error : Response :=
  mkResponse 500 "Internal Server Error" ∅ (Text "boom").

Definition too_many (retry_after : option string) : Response :=
  mkResponse 429 "Too Many Requests"
    (match retry_after with
     | Some s => {["retry-after" := s]}
     | None => ∅
     end) NoContent.

(** The job of the first scenario of the spec: running at submission and at
    the first poll, complete with 42 rows at the second. *)
Definition one_job_service : Service :=
  λ n _, match n with
         | 0 => accepted "J1" "running"
         | 1 => ok_json (job_snapshot "J1" "running")
         | _ => ok_json (dict [("jobId", PStr "J1"); ("jobStatus", PStr "complete");
                               ("rowsReturned", PInt 42); ("usage", PInt 1)])
         end.

(** A service that answers every request with a 429 whose Retry-After is an
    HTTP date. *)
Definition http_date_service : Service :=
  λ _ _, too_many (Some "Wed, 21 Oct 2015 07:28:00 GMT").

(** The scenario of the spec for rate-limiting: [RateLimited{5}], then
    success. *)
Definition five_then_accepted : Service :=
  λ n _, match n with
         | 0 => too_many (Some "5")
         | _ => accepted "J1" "running"
         end.

(** Two jobs in progress after two exchanges, [J2] submitted after [J1]. *)
Definition job_in_progress (line : nat) (job_id status : string) : Job :=
  mkJob line sample_request (job_snapshot job_id status).

Definition two_in_progress : World :=
  mkWorld 2 [] [job_in_progress 2 "J2" "running";
                job_in_progress 1 "J1" "running"].

Definition complete_fields : gmap string pyval :=
  list_to_map [("jobId", PStr "J1"); ("jobStatus", PStr "complete");
               ("rowsReturned", PInt 42)].

(** The third exchange reports [J1] complete, with no [usage]; every other
    one reports [J2] running. *)
Definition first_done_service : Service :=
  λ n _, match n with
         | 2 => ok_json (PDict complete_fields)
         | _ => ok_json (job_snapshot "J2" "running")
         end.

(** The scenario of the spec with a 429 and [Retry-After: 2]: the retry is
    accepted, and the job is complete at its first poll. *)
Definition two_then_accepted : Service :=
  λ n _, match n with
         | 0 => too_many (Some "2")
         | 1 => accepted "J1" "running"
         | _ => ok_json (job_snapshot "J1" "complete")
         end.


(** Two submissions accepted; in the sweep after the second, the first job
    is reported complete and the poll of the second fails. *)
Definition second_poll_fails_service : Service :=
  λ n _, match n with
         | 0 => accepted "J1" "running"
         | 1 => ok_json (job_snapshot "J1" "running")
         | 2 => accepted "J2" "running"
         | 3 => ok_json (job_snapshot "J1" "complete")
         | _ => server_error
         end.

(** A service that accepts the submission and fails every poll. *)
Definition poll_fails_service : Service :=
  λ n _, match n with
         | 0 => accepted "J1" "running"
         | _ => server_error
         end.


(** A service that accepts every submission and reports every job running
    until exchange [bound], complete from then on. *)
Definition steady_service (bound : nat) : Service :=
  λ n rq, match rq with
          | PostArchive _ _ => accepted "J1" "running"
          | GetActivity _ _ =>
              if (bound <=? n)%nat then ok_json (job_snapshot "J1" "complete")
              else ok_json (job_snapshot "J1" "running")
          end.

(** A service that accepts every submission and reports every job running,
    for ever. *)
Definition forever_running : Service :=
  λ _ rq, match rq with
          | PostArchive _ _ => accepted "J1" "running"
          | GetActivity _ _ => ok_json (job_snapshot "J1" "running")
          end.

(** The first record, not yet submitted and once submitted. *)
Definition first_job : Job := mkJob 1 sample_request (PDict ∅).

Definition first_submitted : World :=
  enqueued first_job (job_snapshot "J1" "running") (PStr "J1")
    (exchanged (PostArchive "key" sample_request) initial_world).

(** ** More of the program, and the vocabulary of the further properties *)

(** The payload [post] serializes: the six fields under the names of the
    API. *)
Definition post_payload (req : ArchiveRequest) : gmap string pyval :=
  <["location" := location req]>
    (<["startDateTime" := start_date_time req]>
       (<["endDateTime" := end_date_time req]>
          (<["format" := format req]>
             (<["units" := units req]>
                (<["resultsLocation" := results_location req]> ∅))))).

(** The names of the payload of [post]. *)
Definition api_names : list string :=
  ["location"; "startDateTime"; "endDateTime"; "format"; "units";
   "resultsLocation"].

(** [getattr(req, field)] for the fields of the named tuple. *)
Definition field_value (req : ArchiveRequest) (field : string) : option pyval :=
  if String.eqb field "start_date_time" then Some (start_date_time req)
  else if String.eqb field "end_date_time" then Some (end_date_time req)
  else if String.eqb field "location" then Some (location req)
  else if String.eqb field "format" then Some (format req)
  else if String.eqb field "units" then Some (units req)
  else if String.eqb field "results_location" then Some (results_location req)
  else None.

(** A string without underscore, hyphen or space. *)
Fixpoint no_separator (s : string) : bool :=
  match s with
  | EmptyString => true
  | String c s' => negb (is_separator c) && no_separator s'
  end.

(** The normalized header name of a column. *)
Definition column_name (kv : string * pyval) : string := normalize_key kv.1.

(** What identifies a job whatever its snapshot: its line and its request. *)
Definition identity (job : Job) : nat * ArchiveRequest :=
  (line_number job, request job).



(** A snapshot of a job in error, and a service that answers with it. *)
Definition errored_fields : gmap string pyval :=
  list_to_map [("jobId", PStr "J1"); ("jobStatus", PStr "error");
               ("error", PStr "bad location")].

Definition error_service : Service := λ _ _, ok_json (PDict errored_fields).

(** A snapshot of a running job that has lost its job id. *)
Definition idless_fields : gmap string pyval :=
  list_to_map [("jobStatus", PStr "running")].

Definition idless_service : Service := λ _ _, ok_json (PDict idless_fields).

(** A service whose answers are a success with a body that has no job. *)
Definition jobless_service : Service :=
  λ _ _, ok_json (job_snapshot "J1" "running").


(** A service that answers every request with success and a body that is
    plain text. *)
Definition jobless_text_service : Service :=
  λ _ _, mkResponse 200 "OK" ∅ (Text "<html>maintenance</html>").

(** * Proofs *)

(** ** Header names *)


Lemma is_separator_lower c : is_separator (lower_char c) = is_separator c.
Proof. by destruct c as [[] [] [] [] [] [] [] []]. Qed.

Lemma remove_char_cons c d s :
  remove_char c (String d s) =
  if Ascii.eqb d c then remove_char c s else String d (remove_char c s).
Proof. reflexivity. Qed.

Lemma squeeze_cons c s :
  squeeze (String c s) =
  if is_separator c then squeeze s else String (lower_char c) (squeeze s).
Proof.
  rewrite <- (is_separator_lower c). unfold squeeze, is_separator. cbn [lower].
  rewrite remove_char_cons.
  destruct (Ascii.eqb (lower_char c) "_") eqn:E1; [done|].
  rewrite remove_char_cons.
  destruct (Ascii.eqb (lower_char c) "-") eqn:E2; [done|].
  rewrite remove_char_cons.
  by destruct (Ascii.eqb (lower_char c) " ") eqn:E3.
Qed.



Lemma normalize_key_squeeze k :
  normalize_key k = default (squeeze k) (canonical_names !! squeeze k).
Proof. reflexivity. Qed.






(** ** Records to requests *)

Lemma dom_normalized_from (row : Row) (m : gmap string pyval) :
  dom (foldl (λ m kv, <[normalize_key kv.1 := kv.2]> m) m row)
  = dom m ∪ list_to_set ((λ kv, normalize_key kv.1) <$> row).
Proof.
  revert m. induction row as [|kv row IH]; intros m; simpl.
  - by rewrite (right_id_L ∅ (∪)).
  - rewrite IH, dom_insert_L, (comm_L (∪) {[_]} (dom m)).
    by rewrite <- (assoc_L (∪)).
Qed.

Lemma dom_normalized_row row : dom (normalized_row row) = header_names row.
Proof.
  unfold normalized_row, header_names.
  by rewrite dom_normalized_from, dom_empty_L, (left_id_L ∅ (∪)).
Qed.

Lemma elem_of_required_fields k :
  k ∈ required_fields ↔ k ∈ ArchiveRequest_fields.
Proof. unfold required_fields. by rewrite elem_of_list_to_set. Qed.

Ltac is_field := eapply (bool_decide_unpack _); vm_compute; reflexivity.

Lemma new_ArchiveRequest_complete (kwargs : gmap string pyval) :
  dom kwargs = required_fields → ∃ req, new_ArchiveRequest kwargs = Ok req.
Proof.
  intros Hdom. unfold new_ArchiveRequest.
  assert (Hin : ∀ k, k ∈ ArchiveRequest_fields → is_Some (kwargs !! k)).
  { intros k Hk. apply elem_of_dom. rewrite Hdom.
    by apply elem_of_required_fields. }
  case_decide as Hall.
  - destruct (Hin "start_date_time") as [a ->]; [is_field|].
    destruct (Hin "end_date_time") as [b ->]; [is_field|].
    destruct (Hin "location") as [c ->]; [is_field|].
    destruct (Hin "format") as [d ->]; [is_field|].
    destruct (Hin "units") as [e ->]; [is_field|].
    destruct (Hin "results_location") as [f ->]; [is_field|].
    simpl. eauto.
  - exfalso. apply Hall. intros k v Hk.
    apply elem_of_required_fields. rewrite <- Hdom. by apply elem_of_dom_2 in Hk.
Qed.

Lemma new_ArchiveRequest_sound (kwargs : gmap string pyval) req :
  new_ArchiveRequest kwargs = Ok req → dom kwargs = required_fields.
Proof.
  unfold new_ArchiveRequest. case_decide as Hall; [|done].
  destruct (kwargs !! "start_date_time") as [a|] eqn:Ha; [|done].
  destruct (kwargs !! "end_date_time") as [b|] eqn:Hb; [|done].
  destruct (kwargs !! "location") as [c|] eqn:Hc; [|done].
  destruct (kwargs !! "format") as [d|] eqn:Hd; [|done].
  destruct (kwargs !! "units") as [e|] eqn:He; [|done].
  destruct (kwargs !! "results_location") as [f|] eqn:Hf; [|done].
  intros _. apply set_eq. intros k. rewrite elem_of_required_fields. split.
  - intros [v Hv]%elem_of_dom. by apply (Hall k v).
  - unfold ArchiveRequest_fields. rewrite !elem_of_cons, elem_of_nil.
    intros [->|[->|[->|[->|[->|[->|[]]]]]]]; by eapply elem_of_dom_2.
Qed.

Lemma new_ArchiveRequest_fails (kwargs : gmap string pyval) :
  (∀ req, new_ArchiveRequest kwargs ≠ Ok req) →
  new_ArchiveRequest kwargs = Exn TypeError.
Proof.
  unfold new_ArchiveRequest. case_decide; [|done].
  destruct (_ ≫= _) as [req|]; [|done]. intros Hno. by destruct (Hno req).
Qed.

(** C9: converting a record succeeds exactly when the set of its normalized
    header names is the set of the six field names; with a field missing or
    with a column that is none of the six it fails, both times with the
    same [TypeError]. *)
Theorem to_request_succeeds_iff_six_fields (row : Row) :
  ((∃ req, to_request row = Ok req) ↔ header_names row = required_fields) ∧
  (header_names row ≠ required_fields → to_request row = Exn TypeError) ∧
  (∀ field, field ∈ ArchiveRequest_fields → field ∉ header_names row →
            to_request row = Exn TypeError) ∧
  (∀ column, column ∈ header_names row → column ∉ ArchiveRequest_fields →
             to_request row = Exn TypeError).
Proof.
  unfold to_request.
  assert (Hiff : (∃ req, new_ArchiveRequest (normalized_row row) = Ok req)
                 ↔ header_names row = required_fields).
  { rewrite <- dom_normalized_row. split.
    - intros [req H]. by eapply new_ArchiveRequest_sound.
    - apply new_ArchiveRequest_complete. }
  assert (Hfail : header_names row ≠ required_fields →
                  new_ArchiveRequest (normalized_row row) = Exn TypeError).
  { intros Hne. apply new_ArchiveRequest_fails. intros req Hreq.
    apply Hne, Hiff. eauto. }
  split; [exact Hiff|]. split; [exact Hfail|]. split.
  - intros field Hin Hout. apply Hfail. intros Heq. apply Hout.
    rewrite Heq. by apply elem_of_required_fields.
  - intros column Hin Hout. apply Hfail. intros Heq. apply Hout.
    apply elem_of_required_fields. by rewrite <- Heq.
Qed.

Lemma to_request_succeeds_iff_six_fields_witness :
  header_names sample_row = required_fields ∧
  (∃ req, to_request sample_row = Ok req) ∧
  "extra" ∈ header_names (("Extra", PStr "x") :: sample_row) ∧
  ("extra" ∉ ArchiveRequest_fields) ∧
  to_request (("Extra", PStr "x") :: sample_row) = Exn TypeError.
Proof.
  assert (H1 : header_names sample_row = required_fields).
  { is_field. }
  assert (H2 : "extra" ∈ header_names (("Extra", PStr "x") :: sample_row)).
  { is_field. }
  assert (H3 : "extra" ∉ ArchiveRequest_fields).
  { is_field. }
  split; [exact H1|]. split.
  - exact (proj2 (proj1 (to_request_succeeds_iff_six_fields sample_row)) H1).
  - split; [exact H2|]. split; [exact H3|].
    exact (proj2 (proj2 (proj2 (to_request_succeeds_iff_six_fields
             (("Extra", PStr "x") :: sample_row)))) "extra" H2 H3).
Defined.

(** ** Submission with retry *)

Section Submission.

Variable service : Service.

Lemma post_unfold key req w :
  post service key req w =
  let rq := PostArchive key req in
  let response := service (exchanges w) rq in
  if is_http_error response then (Exn (HTTPError response), exchanged rq w)
  else (subscript (read_response_body response) "job", exchanged rq w).
Proof.
  unfold post, bind, send, raise_for_status, lift. simpl.
  by destruct (is_http_error _).
Qed.

Lemma post_with_retry_unfold fuel key req w :
  post_with_retry service (S fuel) key req w =
  let rq := PostArchive key req in
  let response := service (exchanges w) rq in
  if is_http_error response then
    if (status_code response =? 429)%Z then
      match py_int (headers_get (headers response) "Retry-After" "10") with
      | Some seconds =>
          if (seconds <? 0)%Z then (Exn ValueError, exchanged rq w)
          else post_with_retry service fuel key req
                 (log (Slept seconds) (exchanged rq w))
      | None => (Exn ValueError, exchanged rq w)
      end
    else (Exn (HTTPError response), exchanged rq w)
  else (subscript (read_response_body response) "job", exchanged rq w).
Proof.
  cbn [post_with_retry]. unfold bind at 1, try_except_HTTPError, bind at 1.
  rewrite post_unfold. cbn zeta.
  destruct (is_http_error _) eqn:Herr.
  - cbn [ret]. destruct (_ =? 429)%Z; [|done].
    destruct (py_int _) as [seconds|]; [|done].
    unfold bind, sleep. destruct (seconds <? 0)%Z; reflexivity.
  - unfold subscript. destruct (read_response_body _); try reflexivity.
    by destruct (_ !! _).
Qed.

Lemma headers_get_retry_after h :
  headers_get h "Retry-After" "10" = default "10" (h !! "retry-after").
Proof. reflexivity. Qed.

Lemma rate_limited_is_error response :
  status_code response = 429%Z → is_http_error response = true.
Proof. unfold is_http_error. by intros ->. Qed.

Lemma post_with_retry_trace fuel key req w :
  ∃ new, trace (post_with_retry service fuel key req w).2 = new ++ trace w.
Proof.
  revert w. induction fuel as [|fuel IH]; intros w.
  - by exists [].
  - rewrite post_with_retry_unfold. cbn zeta.
    set (rq := PostArchive key req).
    assert (H1 : ∃ new, trace (exchanged rq w) = new ++ trace w)
      by (by exists [Sent rq]).
    repeat case_match; try done.
    destruct (IH (log (Slept z) (exchanged rq w))) as [new ->].
    exists (new ++ [Slept z; Sent rq]). by rewrite <- app_assoc.
Qed.

(** [post_with_retry] never raises the 429 it was answered with. *)
Lemma post_with_retry_hides_429 fuel key req w response w' :
  post_with_retry service fuel key req w = (Exn (HTTPError response), w') →
  status_code response ≠ 429%Z.
Proof.
  revert w. induction fuel as [|fuel IH]; intros w; [done|].
  rewrite post_with_retry_unfold. cbn zeta.
  destruct (is_http_error _) eqn:Herr.
  - destruct (_ =? 429)%Z eqn:H429.
    + destruct (py_int _) as [seconds|]; [|done].
      destruct (seconds <? 0)%Z; [done|]. apply IH.
    + intros [= <- <-]. by apply Z.eqb_neq.
  - destruct (subscript _ _) as [v|e|] eqn:Hs; try done.
    unfold subscript in Hs. repeat case_match; congruence.
Qed.

(** C10: a 429 whose Retry-After is there but is no integer makes
    [post_with_retry] raise [ValueError] right after the one request, with no
    sleep and no retry; and whenever a sleep follows the 429, the header was
    absent (and the sleep is 10 seconds) or it parsed as that integer. *)
Theorem retry_after_not_an_integer_raises key req w :
  let rq := PostArchive key req in
  let response := service (exchanges w) rq in
  status_code response = 429%Z →
  (∀ fuel s,
     headers response !! "retry-after" = Some s → py_int s = None →
     post_with_retry service (S fuel) key req w = (Exn ValueError, exchanged rq w)) ∧
  (∀ fuel seconds later,
     trace (post_with_retry service (S fuel) key req w).2
       = later ++ Slept seconds :: Sent rq :: trace w →
     (headers response !! "retry-after" = None ∧ seconds = 10%Z) ∨
     (∃ s, headers response !! "retry-after" = Some s ∧ py_int s = Some seconds)).
Proof.
  intros rq response H429. split.
  - intros fuel s Hs Hint. rewrite post_with_retry_unfold. cbn zeta.
    fold rq response. rewrite (rate_limited_is_error _ H429), H429. simpl.
    rewrite headers_get_retry_after, Hs. simpl. by rewrite Hint.
  - intros fuel seconds later. rewrite post_with_retry_unfold. cbn zeta.
    fold rq response. rewrite (rate_limited_is_error _ H429), H429. simpl.
    rewrite headers_get_retry_after.
    assert (Hshort : trace (exchanged rq w)
                     ≠ later ++ Slept seconds :: Sent rq :: trace w).
    { intros Heq. apply (f_equal List.length) in Heq.
      rewrite length_app in Heq. simpl in Heq. lia. }
    assert (Hsame : ∀ k,
      trace (post_with_retry service fuel key req
               (log (Slept k) (exchanged rq w))).2
        = later ++ Slept seconds :: Sent rq :: trace w → k = seconds).
    { intros k.
      destruct (post_with_retry_trace fuel key req
                  (log (Slept k) (exchanged rq w))) as [new ->].
      simpl. intros Heq.
      change (new ++ [Slept k] ++ Sent rq :: trace w
              = later ++ [Slept seconds] ++ Sent rq :: trace w) in Heq.
      rewrite !app_assoc in Heq. apply app_inv_tail in Heq.
      apply app_inj_tail in Heq as [_ Heq]. congruence. }
    destruct (headers response !! "retry-after") as [s|] eqn:Hs; simpl.
    + destruct (py_int s) as [k|] eqn:Hk; [|done].
      destruct (k <? 0)%Z; [done|].
      intros ->%Hsame. right. eauto.
    + change (py_int "10") with (Some 10%Z). simpl.
      intros <-%Hsame. by left.
Qed.


Lemma retry_after_seconds_spec response :
  py_int (headers_get (headers response) "Retry-After" "10")
  = retry_after_seconds response.
Proof.
  rewrite headers_get_retry_after. unfold retry_after_seconds.
  by destruct (headers response !! "retry-after").
Qed.

Lemma post_with_retry_rate_limited fuel key req w seconds :
  rate_limited (service (exchanges w) (PostArchive key req)) seconds →
  post_with_retry service (S fuel) key req w
  = post_with_retry service fuel key req
      (log (Slept seconds) (exchanged (PostArchive key req) w)).
Proof.
  intros (H429 & Hsec & Hpos). rewrite post_with_retry_unfold. cbn zeta.
  rewrite (rate_limited_is_error _ H429), H429, retry_after_seconds_spec, Hsec.
  simpl. by destruct (Z.ltb_spec seconds 0); [lia|].
Qed.



Lemma post_with_retry_after_waits waits fuel key req w :
  (∀ i seconds, waits !! i = Some seconds →
     rate_limited (service (exchanges w + i) (PostArchive key req)) seconds) →
  post_with_retry service (List.length waits + fuel) key req w
  = post_with_retry service fuel key req
      (after_waits (PostArchive key req) waits w).
Proof.
  revert w. induction waits as [|k waits IH]; intros w Hall; [done|].
  change (List.length (k :: waits) + fuel) with (S (List.length waits + fuel)).
  rewrite (post_with_retry_rate_limited _ _ _ _ k).
  - apply IH. intros i seconds Hi. simpl.
    replace (S (exchanges w + i)) with (exchanges w + S i) by lia.
    by apply Hall.
  - specialize (Hall 0 k eq_refl). by rewrite Nat.add_0_r in Hall.
Qed.

(** C4: [post_with_retry] never hands the 429 to its caller.  Answered with
    any number of rate-limit signals in a row, it sleeps after each one for
    exactly the seconds that answer asks for (10 without the header) and
    sends the request again, whatever the number of answers and with no
    growth of the waits: as long as the service goes on rate-limiting, it
    neither returns nor raises.  After [RateLimited{5}] and a success the
    job is submitted, with a sleep of 5 seconds between the two requests. *)
Theorem post_with_retry_waits_and_retries key req :
  let rq := PostArchive key req in
  (∀ fuel w response w',
     post_with_retry service fuel key req w = (Exn (HTTPError response), w') →
     status_code response ≠ 429%Z) ∧
  (∀ waits fuel w,
     (∀ i seconds, waits !! i = Some seconds →
        rate_limited (service (exchanges w + i) rq) seconds) →
     post_with_retry service (List.length waits + fuel) key req w
     = post_with_retry service fuel key req (after_waits rq waits w)) ∧
  (∀ fuel w,
     status_code (service (exchanges w) rq) = 429%Z →
     headers (service (exchanges w) rq) !! "retry-after" = None →
     post_with_retry service (S fuel) key req w
     = post_with_retry service fuel key req (log (Slept 10) (exchanged rq w))) ∧
  (∀ fuel w snapshot,
     rate_limited (service (exchanges w) rq) 5 →
     is_http_error (service (S (exchanges w)) rq) = false →
     subscript (read_response_body (service (S (exchanges w)) rq)) "job"
       = Ok snapshot →
     post_with_retry service (S (S fuel)) key req w
     = (Ok snapshot, exchanged rq (log (Slept 5) (exchanged rq w)))) ∧
  (∀ w,
     (∀ n, ∃ seconds, rate_limited (service (exchanges w + n) rq) seconds) →
     ∀ fuel, (post_with_retry service fuel key req w).1 = OutOfFuel).
Proof.
  intros rq. split; [|split; [|split; [|split]]].
  - intros fuel w response w'. apply post_with_retry_hides_429.
  - intros waits fuel w. apply post_with_retry_after_waits.
  - intros fuel w H429 Hnone. apply post_with_retry_rate_limited.
    unfold rate_limited, retry_after_seconds. fold rq. by rewrite Hnone.
  - intros fuel w snapshot Hlimited Hok Hjob.
    rewrite (post_with_retry_rate_limited _ _ _ _ 5 Hlimited).
    rewrite post_with_retry_unfold. cbn zeta. simpl exchanges.
    fold rq. by rewrite Hok, Hjob.
  - intros w Hall fuel. revert w Hall.
    induction fuel as [|fuel IH]; intros w Hall; [done|].
    destruct (Hall 0) as [seconds Hlimited].
    rewrite Nat.add_0_r in Hlimited.
    rewrite (post_with_retry_rate_limited _ _ _ _ seconds Hlimited).
    apply IH. intros n. simpl.
    replace (S (exchanges w + n)) with (exchanges w + S n) by lia.
    apply Hall.
Qed.

End Submission.

Lemma retry_after_not_an_integer_raises_witness :
  post_with_retry http_date_service 3 "key" sample_request initial_world
  = (Exn ValueError,
     exchanged (PostArchive "key" sample_request) initial_world).
Proof.
  refine (proj1 (retry_after_not_an_integer_raises http_date_service
                   "key" sample_request initial_world _) 2
                "Wed, 21 Oct 2015 07:28:00 GMT" _ _); reflexivity.
Defined.

Lemma post_with_retry_waits_and_retries_witness :
  post_with_retry five_then_accepted 2 "key" sample_request initial_world
  = (Ok (job_snapshot "J1" "running"),
     exchanged (PostArchive "key" sample_request)
       (log (Slept 5)
          (exchanged (PostArchive "key" sample_request) initial_world))).
Proof.
  refine (proj1 (proj2 (proj2 (proj2 (post_with_retry_waits_and_retries
            five_then_accepted "key" sample_request)))) 0 initial_world
            _ _ _ _).
  - repeat split. lia.
  - reflexivity.
  - reflexivity.
Defined.

(** ** The sweep *)

Section Sweep.

Variable service : Service.

Lemma notify_job_complete_unfold job w :
  notify_job_complete job w =
  match completion_notice (info job) with
  | Some ev => (Ok tt, log ev w)
  | None =>
      match subscript (info job) "jobId" with
      | Exn e => (Exn e, w)
      | _ => (Exn AttributeError, w)
      end
  end.
Proof.
  unfold notify_job_complete, completion_notice, bind, lift, subscript, dict_get.
  destruct (info job); try reflexivity.
  by destruct (d !! "jobId").
Qed.

Lemma notify_job_errored_unfold job w :
  notify_job_errored job w =
  match error_notice (info job) with
  | Some ev => (Ok tt, log ev w)
  | None =>
      match subscript (info job) "jobId" with
      | Exn e => (Exn e, w)
      | _ => (Exn (KeyError "error"), w)
      end
  end.
Proof.
  unfold notify_job_errored, error_notice, bind, lift, subscript.
  destruct (info job); try reflexivity.
  destruct (d !! "jobId"); [|done]. by destruct (d !! "error").
Qed.

Lemma get_status_unfold key job_id w :
  get_status service key job_id w =
  let rq := GetActivity key job_id in
  let response := service (exchanges w) rq in
  if is_http_error response then (Exn (HTTPError response), exchanged rq w)
  else (Ok (read_response_body response), exchanged rq w).
Proof.
  unfold get_status, bind, send, raise_for_status. simpl.
  by destruct (is_http_error _).
Qed.

Lemma pop_snoc q job w :
  jobs_in_progress w = q ++ [job] → pop w = (Ok job, with_jobs q w).
Proof.
  intros H. unfold pop. by rewrite H, last_snoc, removelast_last.
Qed.

(** One turn of the sweep on a deque whose rightmost job is [job]. *)
Lemma clean_one_unfold key counts w q job :
  jobs_in_progress w = q ++ [job] →
  clean_one service key counts w =
  match subscript (info job) "jobId" with
  | Ok job_id =>
      let rq := GetActivity key job_id in
      let response := service (exchanges w) rq in
      let w1 := exchanged rq (with_jobs q w) in
      if is_http_error response then (Exn (HTTPError response), w1)
      else
        let job' := set_info job (read_response_body response) in
        match verdict (info job') with
        | Some Completed =>
            match notify_job_complete job' w1 with
            | (Ok _, w2) => (Ok (S counts.1, counts.2), w2)
            | (Exn e, w2) => (Exn e, w2)
            | (OutOfFuel, w2) => (OutOfFuel, w2)
            end
        | Some Errored =>
            match notify_job_errored job' w1 with
            | (Ok _, w2) => (Ok (counts.1, S counts.2), w2)
            | (Exn e, w2) => (Exn e, w2)
            | (OutOfFuel, w2) => (OutOfFuel, w2)
            end
        | Some Pending => (Ok counts, with_jobs (job' :: q) w1)
        | None =>
            match subscript (info job') "jobStatus" with
            | Exn e => (Exn e, w1)
            | _ => (OutOfFuel, w1)
            end
        end
  | Exn e => (Exn e, with_jobs q w)
  | OutOfFuel => (OutOfFuel, with_jobs q w)
  end.
Proof.
  intros Hq. unfold clean_one. unfold bind at 1. rewrite (pop_snoc q job w Hq).
  unfold bind at 1, lift at 1.
  destruct (subscript (info job) "jobId") as [job_id| |]; [|done..].
  unfold bind at 1. rewrite get_status_unfold. cbn zeta. simpl exchanges.
  destruct (is_http_error _); [done|].
  unfold bind at 1, lift at 1, verdict.
  destruct (subscript _ "jobStatus") as [status| |]; [|done..].
  destruct (str_eq "complete" status).
  { unfold bind, ret. by destruct (notify_job_complete _ _) as [[[]| |] w2]. }
  destruct (str_eq "error" status).
  { unfold bind, ret. by destruct (notify_job_errored _ _) as [[[]| |] w2]. }
  reflexivity.
Qed.

(** A turn that returns is a poll answered with success. *)
Lemma clean_one_ok key counts w q job counts' w' :
  jobs_in_progress w = q ++ [job] →
  clean_one service key counts w = (Ok counts', w') →
  ∃ p, polled p = job ∧ well_polled service key (exchanges w) p ∧
       exchanges w' = S (exchanges w) ∧
       trace w' = rev (poll_events key p) ++ trace w ∧
       jobs_in_progress w' = requeued [p] ++ q ∧
       counts' = bump (outcome p) counts.
Proof.
  intros Hq. rewrite (clean_one_unfold key counts w q job Hq).
  destruct (subscript (info job) "jobId") as [job_id| |] eqn:Hid; [|done..].
  cbn zeta. destruct (is_http_error _) eqn:Herr; [done|].
  set (snap := read_response_body _). simpl info.
  destruct (verdict snap) as [[| |]|] eqn:Hv.
  - rewrite notify_job_complete_unfold. simpl info.
    destruct (completion_notice snap) as [ev|] eqn:Hn.
    + intros [= <- <-].
      exists (mkPoll job job_id snap Completed (Some ev)).
      repeat split; simpl; eauto.
    + by destruct (subscript snap "jobId").
  - rewrite notify_job_errored_unfold. simpl info.
    destruct (error_notice snap) as [ev|] eqn:Hn.
    + intros [= <- <-].
      exists (mkPoll job job_id snap Errored (Some ev)).
      repeat split; simpl; eauto.
    + by destruct (subscript snap "jobId").
  - intros [= <- <-].
    exists (mkPoll job job_id snap Pending None).
    repeat split; simpl; eauto. done.
  - by destruct (subscript snap "jobStatus").
Qed.


Lemma requeued_cons p polls : requeued (p :: polls) = requeued [p] ++ requeued polls.
Proof.
  unfold requeued. rewrite (filter_cons _ p polls), (filter_cons _ p []).
  by destruct (decide (is_outcome Pending p)).
Qed.

Lemma rev_requeued_one p : rev (requeued [p]) = requeued [p].
Proof.
  unfold requeued. rewrite (filter_cons _ p []).
  by destruct (decide (is_outcome Pending p)).
Qed.

Lemma tally_cons v p polls :
  tally v (p :: polls) = (if is_outcome v p then 1 else 0) + tally v polls.
Proof.
  unfold tally. rewrite (filter_cons _ p polls).
  destruct (decide (is_outcome v p)) as [H|H]; destruct (is_outcome v p); done.
Qed.

Lemma bump_tally p counts m n :
  ((bump (outcome p) counts).1 + m, (bump (outcome p) counts).2 + n)
  = (counts.1 + ((if is_outcome Completed p then 1 else 0) + m),
     counts.2 + ((if is_outcome Errored p then 1 else 0) + n)).
Proof.
  unfold is_outcome. destruct (outcome p), counts; simpl; f_equal; lia.
Qed.

(** What the turns of a sweep that returns have done: [remaining] are the
    jobs still to poll, oldest first, [back] those behind them. *)
Lemma clean_loop_log key remaining :
  ∀ back counts w counts' w',
    rev (jobs_in_progress w) = remaining ++ back →
    clean_loop service key (List.length remaining) counts w = (Ok counts', w') →
    ∃ polls,
      polled <$> polls = remaining ∧
      (∀ i p, polls !! i = Some p →
              well_polled service key (exchanges w + i) p) ∧
      exchanges w' = exchanges w + List.length remaining ∧
      trace w' = rev (List.concat (poll_events key <$> polls)) ++ trace w ∧
      rev (jobs_in_progress w') = back ++ requeued polls ∧
      counts' = (counts.1 + tally Completed polls,
                 counts.2 + tally Errored polls).
Proof.
  induction remaining as [|job rest IH]; intros back counts w counts' w' Hq.
  - intros [= <- <-]. exists []. simpl. rewrite app_nil_r.
    split_and!; [done|done|lia|done|done|].
    destruct counts. unfold tally. simpl. f_equal; lia.
  - cbn [List.length clean_loop]. unfold bind at 1.
    destruct (clean_one service key counts w) as [[c1| |] w1] eqn:Hone; try done.
    intros Hloop.
    assert (Hjobs : jobs_in_progress w = rev (rest ++ back) ++ [job]).
    { rewrite <- (rev_involutive (jobs_in_progress w)), Hq. done. }
    destruct (clean_one_ok _ _ _ _ _ _ _ Hjobs Hone)
      as (p & Hp & Hwell & Hex & Htr & Hq1 & Hc1).
    destruct (IH (back ++ requeued [p]) c1 w1 counts' w') as
      (polls & Hpolled & Hall & Hex' & Htr' & Hq' & Hc'); [|done|].
    { rewrite Hq1, rev_app_distr, rev_involutive, rev_requeued_one.
      by rewrite <- app_assoc. }
    exists (p :: polls). split_and!.
    + by rewrite fmap_cons, Hp, Hpolled.
    + intros [|i] p'; simpl.
      * intros [= <-]. by rewrite Nat.add_0_r.
      * intros Hi. specialize (Hall i p' Hi). rewrite Hex in Hall.
        by replace (exchanges w + S i) with (S (exchanges w) + i) by lia.
    + rewrite Hex', Hex. simpl. lia.
    + rewrite Htr', Htr, fmap_cons. cbn [List.concat].
      by rewrite rev_app_distr, app_assoc.
    + by rewrite (requeued_cons p polls), Hq', <- app_assoc.
    + rewrite Hc', Hc1, !tally_cons. apply bump_tally.
Qed.


Lemma clean_completed_unfold key w :
  clean_completed service key w
  = clean_loop service key (List.length (jobs_in_progress w)) (0, 0) w.
Proof. reflexivity. Qed.

Lemma clean_loop_add key a b :
  ∀ counts w,
    clean_loop service key (a + b) counts w
    = bind (clean_loop service key a counts) (clean_loop service key b) w.
Proof.
  induction a as [|a IH]; intros counts w; [done|].
  cbn [Nat.add clean_loop]. unfold bind.
  destruct (clean_one service key counts w) as [[c1| |] w1]; [|done..].
  by rewrite IH.
Qed.

Lemma expected_notice_shape v snap ev :
  expected_notice v snap = Some ev →
  (v = Completed ∧ ∃ a b c, ev = JobComplete a b c) ∨
  (v = Errored ∧ ∃ a b, ev = JobErrored a b).
Proof.
  unfold expected_notice, completion_notice, error_notice.
  destruct v, snap; try done; simpl.
  - destruct (d !! "jobId"); [|done]. intros [= <-]. left. eauto.
  - destruct (d !! "jobId"); [|done]. simpl.
    destruct (d !! "error"); [|done]. intros [= <-]. right. eauto.
Qed.

Lemma poll_events_parts key p :
  notice p = expected_notice (outcome p) (snapshot p) →
  requests (poll_events key p) = [GetActivity key (asked p)] ∧
  completion_notices (poll_events key p)
  = omap notice (filter (is_outcome Completed) [p]).
Proof.
  intros Hn. unfold poll_events, requests, completion_notices, is_outcome.
  rewrite (filter_cons _ p []).
  destruct (notice p) as [ev|] eqn:Hev.
  - symmetry in Hn. apply expected_notice_shape in Hn
      as [[-> (a & b & c & ->)]|[-> (a & b & ->)]]; simpl; by rewrite ?Hev.
  - by destruct (outcome p); simpl; rewrite ?Hev.
Qed.

Lemma polls_events key polls :
  Forall (λ p, notice p = expected_notice (outcome p) (snapshot p)) polls →
  requests (List.concat (poll_events key <$> polls))
    = (λ p, GetActivity key (asked p)) <$> polls ∧
  completion_notices (List.concat (poll_events key <$> polls))
    = omap notice (filter (is_outcome Completed) polls).
Proof.
  induction 1 as [|p polls Hp _ [IH1 IH2]]; [done|].
  rewrite !fmap_cons. cbn [List.concat]. split.
  - unfold requests in *. rewrite omap_app. fold (requests (poll_events key p)).
    by rewrite (proj1 (poll_events_parts key p Hp)), IH1.
  - unfold completion_notices in *. rewrite filter_app.
    fold (completion_notices (poll_events key p)).
    rewrite (proj2 (poll_events_parts key p Hp)), IH2.
    rewrite <- omap_app, (filter_cons _ p polls), (filter_cons _ p []).
    by destruct (decide (is_outcome Completed p)).
Qed.

Lemma well_polled_notices key n polls :
  (∀ i p, polls !! i = Some p → well_polled service key (n + i) p) →
  Forall (λ p, notice p = expected_notice (outcome p) (snapshot p)) polls.
Proof.
  intros Hall. apply Forall_lookup. intros i p Hi.
  by destruct (Hall i p Hi) as (_ & _ & _ & _ & Hn & _).
Qed.

Lemma completion_notice_shape snap ev :
  completion_notice snap = Some ev → requests [ev] = [].
Proof.
  intros H. destruct (expected_notice_shape Completed snap ev H)
    as [[_ (a & b & c & ->)]|[? _]]; done.
Qed.

Lemma error_notice_shape snap ev :
  error_notice snap = Some ev → requests [ev] = [].
Proof.
  intros H. destruct (expected_notice_shape Errored snap ev H)
    as [[? _]|[_ (a & b & ->)]]; done.
Qed.

(** Whatever becomes of a turn, it has sent the poll of the rightmost job
    and nothing else, or nothing at all if that job has no job id. *)
Lemma clean_one_requests key counts w q job r w' :
  jobs_in_progress w = q ++ [job] →
  clean_one service key counts w = (r, w') →
  ∃ new, trace w' = new ++ trace w ∧
         ((requests (rev new) = [] ∧ ∀ c, r ≠ Ok c) ∨
          (∃ rq, poll_of key rq job ∧ requests (rev new) = [rq])).
Proof.
  intros Hq. rewrite (clean_one_unfold key counts w q job Hq).
  destruct (subscript (info job) "jobId") as [job_id| |] eqn:Hid;
    [|intros [= <- <-]; exists []; split; [done|]; by left..].
  cbn zeta. set (rq := GetActivity key job_id).
  assert (Hpoll : poll_of key rq job) by (by exists job_id).
  assert (Hone : ∀ r0, (r0, exchanged rq (with_jobs q w)) = (r, w') →
    ∃ new, trace w' = new ++ trace w ∧
         ((requests (rev new) = [] ∧ ∀ c, r ≠ Ok c) ∨
          (∃ rq, poll_of key rq job ∧ requests (rev new) = [rq]))).
  { intros r0 [= <- <-]. exists [Sent rq]. split; [done|]. right. eauto. }
  assert (Htwo : ∀ r0 ev, requests [ev] = [] →
    (r0, log ev (exchanged rq (with_jobs q w))) = (r, w') →
    ∃ new, trace w' = new ++ trace w ∧
         ((requests (rev new) = [] ∧ ∀ c, r ≠ Ok c) ∨
          (∃ rq, poll_of key rq job ∧ requests (rev new) = [rq]))).
  { intros r0 ev Hev [= <- <-]. exists [ev; Sent rq]. split; [done|]. right.
    exists rq. split; [done|].
    change (rev [ev; Sent rq]) with ([Sent rq] ++ [ev]).
    unfold requests in *. by rewrite omap_app, Hev. }
  destruct (is_http_error _); [by apply Hone|].
  set (snap := read_response_body _). simpl info.
  destruct (verdict snap) as [[| |]|].
  - rewrite notify_job_complete_unfold. simpl info.
    destruct (completion_notice snap) as [ev|] eqn:Hn.
    + by apply Htwo, (completion_notice_shape snap).
    + destruct (subscript snap "jobId"); by apply Hone.
  - rewrite notify_job_errored_unfold. simpl info.
    destruct (error_notice snap) as [ev|] eqn:Hn.
    + by apply Htwo, (error_notice_shape snap).
    + destruct (subscript snap "jobId"); by apply Hone.
  - intros [= <- <-]. exists [Sent rq]. split; [done|]. right. eauto.
  - destruct (subscript snap "jobStatus"); by apply Hone.
Qed.

(** Whatever becomes of a sweep, its requests are the polls of the first
    jobs of [remaining], in that order. *)
Lemma clean_loop_requests key remaining :
  ∀ back counts w r w',
    rev (jobs_in_progress w) = remaining ++ back →
    clean_loop service key (List.length remaining) counts w = (r, w') →
    ∃ new m,
      trace w' = new ++ trace w ∧
      Forall2 (poll_of key) (requests (rev new)) (take m remaining).
Proof.
  induction remaining as [|job rest IH]; intros back counts w r w' Hq.
  - intros [= <- <-]. exists [], 0. split; [done|]. constructor.
  - cbn [List.length clean_loop]. unfold bind at 1.
    destruct (clean_one service key counts w) as [r1 w1] eqn:Hone.
    assert (Hjobs : jobs_in_progress w = rev (rest ++ back) ++ [job]).
    { rewrite <- (rev_involutive (jobs_in_progress w)), Hq. done. }
    destruct (clean_one_requests _ _ _ _ _ _ _ Hjobs Hone)
      as (new1 & Htr1 & Hreq1).
    assert (Hstop : (∀ c, r1 ≠ Ok c) → (r, w') = (r, w1) →
      ∃ new m, trace w1 = new ++ trace w ∧
               Forall2 (poll_of key) (requests (rev new)) (take m (job :: rest))).
    { intros _ _. exists new1.
      destruct Hreq1 as [[-> _]|(rq & Hrq & ->)].
      - exists 0. split; [done|]. constructor.
      - exists 1. split; [done|]. simpl. rewrite take_0. by repeat constructor. }
    destruct r1 as [c1|e|].
    + intros Hloop.
      destruct Hreq1 as [[_ Hno]|(rq & Hrq & Hreq1)]; [by destruct (Hno c1)|].
      destruct (clean_one_ok _ _ _ _ _ _ _ Hjobs Hone)
        as (p & _ & _ & _ & _ & Hq1 & _).
      destruct (IH (back ++ requeued [p]) c1 w1 r w') as (new & m & Htr & Hreq);
        [|done|].
      { rewrite Hq1, rev_app_distr, rev_involutive, rev_requeued_one.
        by rewrite <- app_assoc. }
      exists (new ++ new1), (S m). split.
      * by rewrite Htr, Htr1, app_assoc.
      * rewrite rev_app_distr. unfold requests in *. rewrite omap_app, Hreq1.
        simpl. by constructor.
    + intros [= <- <-]. by apply Hstop.
    + intros [= <- <-]. by apply Hstop.
Qed.

(** C3: every sweep polls jobs that were in the deque when it started, the
    oldest (rightmost) first and none twice: its requests are the polls of
    the first of them in that order, and of all of them, each once, when the
    sweep returns.  All the while the deque holds, oldest first, the jobs not
    yet polled and behind them the jobs put back.  When the sweep returns the
    jobs read as complete or error are gone and counted; the others are back
    in the same order, each the same job (line number and request) with the
    snapshot just received. *)
Theorem sweep_polls_each_job_once_fifo key w r w' :
  clean_completed service key w = (r, w') →
  let fifo := rev (jobs_in_progress w) in
  (∃ new m, trace w' = new ++ trace w ∧
            Forall2 (poll_of key) (requests (rev new)) (take m fifo)) ∧
  (∀ completes errors, r = Ok (completes, errors) →
   ∃ polls : list Poll,
    polled <$> polls = fifo ∧
    (∀ i p, polls !! i = Some p → well_polled service key (exchanges w + i) p) ∧
    exchanges w' = exchanges w + List.length fifo ∧
    (∃ new, trace w' = new ++ trace w ∧
            requests (rev new) = (λ p, GetActivity key (asked p)) <$> polls) ∧
    rev (jobs_in_progress w') = requeued polls ∧
    completes = tally Completed polls ∧
    errors = tally Errored polls ∧
    (∀ i : nat, (i ≤ List.length fifo)%nat →
          ∃ counts_i w_i put_back,
            clean_loop service key i (0, 0) w = (Ok counts_i, w_i) ∧
            rev (jobs_in_progress w_i) = drop i fifo ++ put_back)).
Proof.
  intros Hsweep fifo. rewrite clean_completed_unfold in Hsweep.
  assert (Hlen : List.length (jobs_in_progress w) = List.length fifo).
  { unfold fifo. by rewrite length_rev. }
  rewrite Hlen in Hsweep. split.
  { apply (clean_loop_requests key fifo [] (0, 0) w r w'); [|done].
    by rewrite app_nil_r. }
  intros completes errors ->.
  destruct (clean_loop_log key fifo [] (0, 0) w (completes, errors) w')
    as (polls & Hpolled & Hall & Hex & Htr & Hq & Hc);
    [by rewrite app_nil_r|done|].
  exists polls. split_and!; try done.
  - exists (rev (List.concat (poll_events key <$> polls))). split; [done|].
    rewrite rev_involutive.
    by apply polls_events, (well_polled_notices key (exchanges w)).
  - by injection Hc.
  - by injection Hc.
  - intros i Hi.
    replace (List.length fifo) with (i + (List.length fifo - i)) in Hsweep by lia.
    rewrite clean_loop_add in Hsweep. unfold bind in Hsweep.
    destruct (clean_loop service key i (0, 0) w) as [[c_i| |] w_i] eqn:Hi';
      [|done..].
    assert (Htake : List.length (take i fifo) = i) by (rewrite length_take; lia).
    rewrite <- Htake in Hi' at 1.
    destruct (clean_loop_log key (take i fifo) (drop i fifo) (0, 0) w c_i w_i)
      as (polls_i & _ & _ & _ & _ & Hq_i & _); [by rewrite take_drop|done|].
    eauto.
Qed.

Lemma tally_notices polls :
  Forall (λ p, outcome p ≠ Pending → is_Some (notice p)) polls →
  List.length (omap notice (filter (is_outcome Completed) polls))
  = tally Completed polls.
Proof.
  unfold tally. induction 1 as [|p polls Hp _ IH]; [done|].
  rewrite (filter_cons _ p polls).
  destruct (decide (is_outcome Completed p)) as [Hc|Hc]; [|done].
  destruct Hp as [ev Hev].
  { unfold is_outcome in Hc. by destruct (outcome p). }
  simpl. rewrite Hev. simpl. f_equal. exact IH.
Qed.

(** C8: a job whose poll is answered with a snapshot of status ['complete']
    adds one to the completion count and prints one completion notice, with
    the job id of the snapshot and its [rowsReturned] and [usage], each 0
    when the snapshot has no such field; the job leaves the deque.  Over a
    sweep that returns, the completion notices printed are those of the
    polls read as complete, one each and in order, and the completion count
    is their number. *)
Theorem complete_job_counted_and_notified key :
  (∀ counts w q job job_id d status job_id',
     jobs_in_progress w = q ++ [job] →
     subscript (info job) "jobId" = Ok job_id →
     let rq := GetActivity key job_id in
     is_http_error (service (exchanges w) rq) = false →
     read_response_body (service (exchanges w) rq) = PDict d →
     d !! "jobStatus" = Some status →
     str_eq "complete" status = true →
     d !! "jobId" = Some job_id' →
     clean_one service key counts w
     = (Ok (S counts.1, counts.2),
        log (JobComplete job_id' (default (PInt 0) (d !! "rowsReturned"))
                         (default (PInt 0) (d !! "usage")))
            (exchanged rq (with_jobs q w)))) ∧
  (∀ w completes errors w',
     clean_completed service key w = (Ok (completes, errors), w') →
     ∃ (polls : list Poll) new,
       polled <$> polls = rev (jobs_in_progress w) ∧
       (∀ i p, polls !! i = Some p →
               well_polled service key (exchanges w + i) p) ∧
       trace w' = new ++ trace w ∧
       completion_notices (rev new)
       = omap notice (filter (is_outcome Completed) polls) ∧
       completes = List.length (completion_notices (rev new))).
Proof.
  split.
  - intros counts w q job job_id d status job_id' Hq Hid rq Herr Hbody Hst Hc Hid'.
    rewrite (clean_one_unfold key counts w q job Hq), Hid. cbn zeta. fold rq.
    rewrite Herr, Hbody. unfold verdict. simpl. rewrite Hst, Hc.
    rewrite notify_job_complete_unfold. simpl. by rewrite Hid'.
  - intros w completes errors w' Hsweep. rewrite clean_completed_unfold in Hsweep.
    rewrite <- (length_rev (jobs_in_progress w)) in Hsweep.
    destruct (clean_loop_log key (rev (jobs_in_progress w)) [] (0, 0) w
                (completes, errors) w')
      as (polls & Hpolled & Hall & Hex & Htr & Hq & Hc);
      [by rewrite app_nil_r|done|].
    exists polls, (rev (List.concat (poll_events key <$> polls))).
    rewrite rev_involutive.
    assert (Hnotices := well_polled_notices key (exchanges w) polls Hall).
    destruct (polls_events key polls Hnotices) as [_ Hcn].
    split_and!; try done.
    rewrite Hcn, tally_notices; [by injection Hc|].
    apply Forall_lookup. intros i p Hi.
    by destruct (Hall i p Hi) as (_ & _ & _ & _ & _ & Hn).
Qed.


Lemma snoc_cases {A} (l : list A) : l = [] ∨ ∃ q x, l = q ++ [x].
Proof. destruct l using rev_ind; eauto. Qed.

Lemma pop_empty w : jobs_in_progress w = [] → pop w = (Exn IndexError, w).
Proof. intros H. unfold pop. by rewrite H. Qed.




End Sweep.

Lemma sweep_polls_each_job_once_fifo_witness :
  ∃ polls : list Poll,
    polled <$> polls = [job_in_progress 1 "J1" "running";
                        job_in_progress 2 "J2" "running"] ∧
    rev (jobs_in_progress
           (clean_completed first_done_service "key" two_in_progress).2)
    = requeued polls ∧
    1 = tally Completed polls.
Proof.
  destruct (proj2 (sweep_polls_each_job_once_fifo first_done_service "key"
              two_in_progress (Ok (1, 0))
              (clean_completed first_done_service "key" two_in_progress).2
              eq_refl) 1 0 eq_refl)
    as (polls & H1 & _ & _ & _ & H2 & H3 & _).
  exists polls. split; [exact H1|]. split; [exact H2|exact H3].
Defined.

Lemma complete_job_counted_and_notified_witness :
  clean_one first_done_service "key" (0, 0) two_in_progress
  = (Ok (1, 0),
     log (JobComplete (PStr "J1") (PInt 42) (PInt 0))
       (exchanged (GetActivity "key" (PStr "J1"))
          (with_jobs [job_in_progress 2 "J2" "running"] two_in_progress))).
Proof.
  exact (proj1 (complete_job_counted_and_notified first_done_service "key")
           (0, 0) two_in_progress [job_in_progress 2 "J2" "running"]
           (job_in_progress 1 "J1" "running") (PStr "J1") complete_fields
           (PStr "complete") (PStr "J1")
           eq_refl eq_refl eq_refl eq_refl eq_refl eq_refl eq_refl).
Defined.


(** ** The driver *)

Section Driver.

Variable service : Service.

Lemma subscript_exn v k e :
  subscript v k = Exn e → e = KeyError k ∨ e = TypeError.
Proof.
  unfold subscript. destruct v; try (intros [= <-]; eauto).
  destruct (d !! k); [done|]. intros [= <-]. eauto.
Qed.

Lemma submit_and_clean_unfold fuel key job counts w :
  submit_and_clean service fuel key job counts w =
  match post_with_retry service fuel key (request job) w with
  | (Ok snap, w1) =>
      match subscript snap "jobId" with
      | Ok job_id =>
          match clean_completed service key (enqueued job snap job_id w1) with
          | (Ok new, w2) => (Ok (counts.1 + new.1, counts.2 + new.2), w2)
          | (Exn (HTTPError response), w2) =>
              (Ok (counts.1, counts.2 + 1), log (reported response) w2)
          | (Exn e, w2) => (Exn e, w2)
          | (OutOfFuel, w2) => (OutOfFuel, w2)
          end
      | Exn e => (Exn e, w1)
      | OutOfFuel => (OutOfFuel, w1)
      end
  | (Exn (HTTPError response), w1) =>
      (Ok (counts.1, counts.2 + 1), log (reported response) w1)
  | (Exn e, w1) => (Exn e, w1)
  | (OutOfFuel, w1) => (OutOfFuel, w1)
  end.
Proof.
  unfold submit_and_clean, try_except_HTTPError. unfold bind at 1.
  destruct (post_with_retry _ _ _ _ _) as [[snap|[]|] w1]; try reflexivity.
  unfold bind at 1, notify_job_submitted. unfold bind at 1, lift at 1. simpl info.
  destruct (subscript snap "jobId") as [job_id|e|] eqn:Hid; try reflexivity.
  - unfold emit, bind at 1, appendleft, bind at 1.
    change (with_jobs _ _) with (enqueued job snap job_id w1).
    unfold bind.
    by destruct (clean_completed _ _ _) as [[new|[]|] w2].
  - by destruct (subscript_exn _ _ _ Hid) as [-> | ->].
Qed.




Lemma drain_unfold fuel key counts w :
  drain service (S fuel) key counts w =
  match jobs_in_progress w with
  | [] => (Ok counts, w)
  | _ :: _ =>
      match clean_completed service key w with
      | (Ok new, w1) =>
          drain service fuel key (counts.1 + new.1, counts.2 + new.2)
                (log (Slept 10) w1)
      | (Exn e, w1) => (Exn e, w1)
      | (OutOfFuel, w1) => (OutOfFuel, w1)
      end
  end.
Proof.
  cbn [drain]. unfold bind at 1, len_jobs.
  destruct (jobs_in_progress w) as [|job q]; [done|]. cbn [List.length].
  unfold bind at 1.
  by destruct (clean_completed service key w) as [[new| |] w1].
Qed.

Lemma run_jobs_unfold fuel key rows w0 :
  run_jobs service fuel key rows w0 =
  match submit_all service fuel key (yield_jobs rows) (0, 0) (with_jobs [] w0) with
  | (Ok counts, w) =>
      match drain service fuel key counts w with
      | (Ok counts', w') =>
          (Ok tt, log (Results (counts'.1 + counts'.2) counts'.2) w')
      | (Exn e, w') => (Exn e, w')
      | (OutOfFuel, w') => (OutOfFuel, w')
      end
  | (Exn e, w) => (Exn e, w)
  | (OutOfFuel, w) => (OutOfFuel, w)
  end.
Proof.
  unfold run_jobs, run_counts, bind, new_deque.
  destruct (submit_all _ _ _ _ _ _) as [[counts| |] w]; [|done..].
  by destruct (drain _ _ _ _ _) as [[counts'| |] w'].
Qed.


Lemma post_with_retry_jobs fuel key req :
  ∀ w, jobs_in_progress (post_with_retry service fuel key req w).2
       = jobs_in_progress w.
Proof.
  induction fuel as [|fuel IH]; intros w; [done|].
  rewrite post_with_retry_unfold. cbn zeta.
  repeat case_match; try done. by rewrite IH.
Qed.

Lemma clean_one_http_error key counts w response w' :
  clean_one service key counts w = (Exn (HTTPError response), w') →
  ∃ n job_id, response = service n (GetActivity key job_id) ∧
              is_http_error response = true.
Proof.
  destruct (snoc_cases (jobs_in_progress w)) as [Hq|(q & job & Hq)].
  - unfold clean_one, bind. by rewrite (pop_empty w Hq).
  - rewrite (clean_one_unfold service key counts w q job Hq).
    destruct (subscript (info job) "jobId") as [job_id|e|] eqn:Hid; [| |done].
    2:{ by destruct (subscript_exn _ _ _ Hid) as [-> | ->]. }
    cbn zeta. destruct (is_http_error _) eqn:Herr.
    { intros [= <- _]. eauto. }
    set (snap := read_response_body _). simpl info.
    destruct (verdict snap) as [[| |]|] eqn:Hv; [| |done|].
    + rewrite notify_job_complete_unfold.
      destruct (completion_notice _); [done|]. simpl info.
      destruct (subscript snap "jobId") as [?|e|] eqn:Hs; try done.
      by destruct (subscript_exn _ _ _ Hs) as [-> | ->].
    + rewrite notify_job_errored_unfold.
      destruct (error_notice _); [done|]. simpl info.
      destruct (subscript snap "jobId") as [?|e|] eqn:Hs; try done.
      by destruct (subscript_exn _ _ _ Hs) as [-> | ->].
    + simpl info. destruct (subscript snap "jobStatus") as [?|e|] eqn:Hs; try done.
      by destruct (subscript_exn _ _ _ Hs) as [-> | ->].
Qed.

Lemma clean_loop_http_error key turns :
  ∀ counts w response w',
    clean_loop service key turns counts w = (Exn (HTTPError response), w') →
    ∃ n job_id, response = service n (GetActivity key job_id) ∧
                is_http_error response = true.
Proof.
  induction turns as [|turns IH]; intros counts w response w'; [done|].
  cbn [clean_loop]. unfold bind.
  destruct (clean_one service key counts w) as [[c1|e|] w1] eqn:Hone; [|by intros [= -> ->]; eapply clean_one_http_error|done].
  apply IH.
Qed.

Lemma tally_total polls :
  tally Completed polls + tally Errored polls + List.length (requeued polls)
  = List.length polls.
Proof.
  induction polls as [|p polls IH]; [done|].
  rewrite !tally_cons, (requeued_cons p polls), length_app. simpl.
  rewrite <- IH. unfold requeued. rewrite (filter_cons _ p []).
  unfold is_outcome. destruct (outcome p); simpl; lia.
Qed.

(** A sweep that returns has counted every job it took out of the deque. *)
Lemma clean_completed_accounts key w new w' :
  clean_completed service key w = (Ok new, w') →
  new.1 + new.2 + List.length (jobs_in_progress w')
  = List.length (jobs_in_progress w).
Proof.
  intros Hsweep. rewrite clean_completed_unfold in Hsweep.
  rewrite <- (length_rev (jobs_in_progress w)) in Hsweep.
  destruct (clean_loop_log service key (rev (jobs_in_progress w)) [] (0, 0) w
              new w')
    as (polls & Hpolled & _ & _ & _ & Hq & ->); [by rewrite app_nil_r|done|].
  simpl in *. rewrite <- (length_rev (jobs_in_progress w')), Hq, tally_total.
  by rewrite <- (length_rev (jobs_in_progress w)), <- Hpolled, length_fmap.
Qed.

Lemma submit_and_clean_accounts fuel key job counts w counts' w' :
  polls_succeed service key →
  submit_and_clean service fuel key job counts w = (Ok counts', w') →
  counts'.1 + counts'.2 + List.length (jobs_in_progress w')
  = counts.1 + counts.2 + List.length (jobs_in_progress w) + 1.
Proof.
  intros Hpolls. rewrite submit_and_clean_unfold.
  assert (Hjobs := post_with_retry_jobs fuel key (request job) w).
  destruct (post_with_retry _ _ _ _ _) as [[snap|e|] w1]; simpl in Hjobs; [| |done].
  - destruct (subscript snap "jobId") as [job_id| |]; [|done..].
    destruct (clean_completed _ _ _) as [[new|e|] w2] eqn:Hsweep; [| |done].
    + intros [= <- <-]. apply clean_completed_accounts in Hsweep.
      simpl in *. rewrite Hjobs in Hsweep. lia.
    + destruct e; try done.
      apply clean_loop_http_error in Hsweep as (n & job_id' & -> & Herr).
      by rewrite Hpolls in Herr.
  - destruct e; try done. intros [= <- <-]. simpl. rewrite Hjobs. lia.
Qed.

Lemma yield_job_unfold index row w :
  yield_job index row w =
  match to_request row with
  | Ok req => (Ok (mkJob (index + 1) req (PDict ∅)), w)
  | Exn e => (Exn e, w)
  | OutOfFuel => (OutOfFuel, w)
  end.
Proof. unfold yield_job, bind, lift. by destruct (to_request row). Qed.

Lemma submit_all_accounts fuel key rows :
  polls_succeed service key →
  ∀ index counts w counts' w',
    submit_all service fuel key (yield_jobs_from index rows) counts w
      = (Ok counts', w') →
    counts'.1 + counts'.2 + List.length (jobs_in_progress w')
    = counts.1 + counts.2 + List.length (jobs_in_progress w) + List.length rows.
Proof.
  intros Hpolls. induction rows as [|row rows IH]; intros index counts w counts' w'.
  - intros [= <- <-]. simpl. lia.
  - cbn [yield_jobs_from submit_all]. unfold bind at 1. rewrite yield_job_unfold.
    destruct (to_request row) as [req| |]; [|done..]. unfold bind.
    destruct (submit_and_clean _ _ _ _ _ _) as [[c1| |] w1] eqn:Hstep; [|done..].
    intros Hrest. apply IH in Hrest.
    apply (submit_and_clean_accounts _ _ _ _ _ _ _ Hpolls) in Hstep.
    simpl. lia.
Qed.

Lemma drain_accounts fuel key :
  ∀ counts w counts' w',
    drain service fuel key counts w = (Ok counts', w') →
    jobs_in_progress w' = [] ∧
    counts'.1 + counts'.2
    = counts.1 + counts.2 + List.length (jobs_in_progress w).
Proof.
  induction fuel as [|fuel IH]; intros counts w counts' w'; [done|].
  rewrite drain_unfold.
  destruct (jobs_in_progress w) as [|job q] eqn:Hq.
  - intros [= <- <-]. simpl. split; [done|lia].
  - destruct (clean_completed service key w) as [[new| |] w1] eqn:Hsweep; [|done..].
    intros Hrest. apply IH in Hrest as [Hnil Hsum]. split; [done|].
    apply clean_completed_accounts in Hsweep. rewrite Hq in Hsweep.
    simpl in *. lia.
Qed.

Section Obliging.

Variables (key : string) (bound : nat).
Hypothesis Hgood : obliging service key bound.

Lemma completion_notice_is_Some snap job_id :
  subscript snap "jobId" = Ok job_id → is_Some (completion_notice snap).
Proof.
  unfold subscript, completion_notice. destruct snap; try done.
  destruct (d !! "jobId"); [|done]. simpl. eauto.
Qed.

Lemma clean_one_good c w q job :
  identified w →
  jobs_in_progress w = q ++ [job] →
  ∃ c' w',
    clean_one service key (c, 0) w = (Ok (c', 0), w') ∧
    identified w' ∧
    exchanges w' = S (exchanges w) ∧
    ((jobs_in_progress w' = q ∧ c' = S c) ∨
     (∃ job', jobs_in_progress w' = job' :: q ∧ c' = c ∧
              ¬ (bound ≤ exchanges w)%nat)).
Proof.
  intros Hid Hq. unfold identified in Hid. rewrite Hq in Hid.
  apply Forall_app in Hid as [Hidq Hjob].
  apply Forall_singleton in Hjob as [job_id Hjob].
  destruct Hgood as (_ & Hpoll & Hdone).
  destruct (Hpoll (exchanges w) job_id) as (Herr & [job_id' Hid'] & Hv).
  rewrite (clean_one_unfold service key (c, 0) w q job Hq), Hjob. cbn zeta.
  rewrite Herr. simpl info.
  destruct Hv as [Hv|Hv]; rewrite Hv.
  - rewrite notify_job_complete_unfold. simpl info.
    destruct (completion_notice_is_Some _ _ Hid') as [ev ->].
    eexists _, _. split; [done|]. split_and!; [by unfold identified; simpl|done|].
    by left.
  - eexists _, _. split; [done|]. split_and!; [|done|].
    + unfold identified. simpl. apply Forall_cons. split; [|done].
      simpl. eauto.
    + right. eexists. split_and!; [done..|].
      intros Hle. specialize (Hdone _ job_id Hle). congruence.
Qed.

Lemma clean_loop_good turns :
  ∀ c w,
    identified w →
    (turns ≤ List.length (jobs_in_progress w))%nat →
    ∃ c' w',
      clean_loop service key turns (c, 0) w = (Ok (c', 0), w') ∧
      identified w' ∧
      exchanges w' = exchanges w + turns ∧
      c' + List.length (jobs_in_progress w')
      = c + List.length (jobs_in_progress w) ∧
      ((bound ≤ exchanges w)%nat →
       List.length (jobs_in_progress w')
       = List.length (jobs_in_progress w) - turns).
Proof.
  induction turns as [|turns IH]; intros c w Hid Hle.
  - exists c, w. split_and!; [done|done|lia|done|lia].
  - destruct (snoc_cases (jobs_in_progress w)) as [Hq|(q & job & Hq)].
    { rewrite Hq in Hle. simpl in Hle. lia. }
    destruct (clean_one_good c w q job Hid Hq) as (c1 & w1 & Hone & Hid1 & Hex1 & Hq1).
    assert (Hlen : List.length (jobs_in_progress w) = S (List.length q)).
    { rewrite Hq, length_app. simpl. lia. }
    destruct (IH c1 w1 Hid1) as (c' & w' & Hloop & Hid' & Hex' & Hsum & Hdone).
    { destruct Hq1 as [[-> _]|(job' & -> & _)]; simpl; lia. }
    exists c', w'. cbn [clean_loop]. unfold bind. rewrite Hone.
    split_and!; [done|done|lia| |].
    + destruct Hq1 as [[Hq1 ->]|(job' & Hq1 & -> & _)];
        rewrite Hq1 in Hsum; simpl in Hsum; lia.
    + intros Hb. destruct Hq1 as [[Hq1 _]|(job' & _ & _ & Hnot)]; [|done].
      rewrite Hdone, Hq1 by lia. lia.
Qed.

Lemma clean_completed_good w :
  identified w →
  ∃ c' w',
    clean_completed service key w = (Ok (c', 0), w') ∧
    identified w' ∧
    exchanges w' = exchanges w + List.length (jobs_in_progress w) ∧
    c' + List.length (jobs_in_progress w') = List.length (jobs_in_progress w) ∧
    ((bound ≤ exchanges w)%nat → jobs_in_progress w' = []).
Proof.
  intros Hid. rewrite clean_completed_unfold.
  destruct (clean_loop_good (List.length (jobs_in_progress w)) 0 w Hid)
    as (c' & w' & Hloop & Hid' & Hex & Hsum & Hdone); [done|].
  exists c', w'. split_and!; [done..|].
  intros Hb. apply nil_length_inv. rewrite (Hdone Hb). lia.
Qed.

Lemma submit_and_clean_good fuel job c w :
  identified w →
  ∃ c' w',
    submit_and_clean service (S fuel) key job (c, 0) w = (Ok (c', 0), w') ∧
    identified w' ∧
    c' + List.length (jobs_in_progress w')
    = c + List.length (jobs_in_progress w) + 1.
Proof.
  intros Hid. destruct Hgood as (Hsubmit & _ & _).
  destruct (Hsubmit (exchanges w) (request job))
    as (Herr & snap & job_id & Hsnap & Hjob).
  rewrite submit_and_clean_unfold, post_with_retry_unfold. cbn zeta.
  rewrite Herr, Hsnap, Hjob.
  destruct (clean_completed_good
              (enqueued job snap job_id (exchanged (PostArchive key (request job)) w)))
    as (c' & w' & -> & Hid' & _ & Hsum & _).
  { unfold identified. simpl. apply Forall_cons. split; [|done]. simpl. eauto. }
  exists (c + c'), w'. split_and!; [done|done|]. simpl in *. lia.
Qed.

Lemma submit_all_good fuel rows :
  well_formed rows →
  ∀ index c w,
    identified w →
    ∃ c' w',
      submit_all service (S fuel) key (yield_jobs_from index rows) (c, 0) w
        = (Ok (c', 0), w') ∧
      identified w' ∧
      c' + List.length (jobs_in_progress w')
      = c + List.length (jobs_in_progress w) + List.length rows.
Proof.
  induction 1 as [|row rows [req Hreq] _ IH]; intros index c w Hid.
  - exists c, w. split_and!; [done|done|simpl; lia].
  - cbn [yield_jobs_from submit_all]. unfold bind at 1.
    rewrite yield_job_unfold, Hreq. unfold bind.
    destruct (submit_and_clean_good fuel (mkJob (index + 1) req (PDict ∅)) c w Hid)
      as (c1 & w1 & -> & Hid1 & Hsum1).
    destruct (IH (S index) c1 w1 Hid1) as (c' & w' & -> & Hid' & Hsum').
    exists c', w'. split_and!; [done|done|simpl; lia].
Qed.

Lemma drain_good m :
  ∀ fuel c w,
    identified w →
    (bound - exchanges w ≤ m)%nat →
    (m + 2 ≤ fuel)%nat →
    ∃ w',
      drain service fuel key (c, 0) w
        = (Ok (c + List.length (jobs_in_progress w), 0), w') ∧
      jobs_in_progress w' = [].
Proof.
  induction m as [|m IH]; intros fuel c w Hid Hm Hfuel;
    (destruct fuel as [|fuel]; [lia|]); rewrite drain_unfold;
    (destruct (jobs_in_progress w) as [|job q] eqn:Hq;
     [exists w; by rewrite Nat.add_0_r|]);
    destruct (clean_completed_good w Hid) as (c' & w1 & -> & Hid1 & Hex & Hsum & Hdone);
    rewrite Hq in Hsum, Hex; simpl in Hsum, Hex; simpl.
  - assert (Hnil : jobs_in_progress w1 = []) by (apply Hdone; lia).
    rewrite Hnil in Hsum. simpl in Hsum.
    destruct fuel as [|fuel]; [lia|]. rewrite drain_unfold. simpl.
    rewrite Hnil. exists (log (Slept 10) w1). split; [|done].
    by replace (c + c') with (c + S (List.length q)) by lia.
  - destruct (IH fuel (c + c') (log (Slept 10) w1)) as (w' & Hdrain & Hnil);
      [done|simpl; lia|lia|].
    exists w'. split; [|done]. rewrite Hdrain. simpl.
    by replace (c + c' + List.length (jobs_in_progress w1))
      with (c + S (List.length q)) by lia.
Qed.

End Obliging.

(** C1, amended: with records that all have the six fields and a service
    that never rate-limits, never answers with a failure, never reports an
    error status, answers with the fields the program reads and reports
    every job complete from some exchange on, [run_jobs] ends and prints a
    tally of N jobs run and 0 errors, the deque being empty.  Whenever the
    counting ends and no poll was answered with a failure, completions plus
    errors is the number of records, submission failures and jobs in error
    included. *)
Theorem run_accounts_for_every_record key rows :
  (∀ bound fuel w0,
     well_formed rows →
     obliging service key bound →
     (bound + 2 ≤ fuel)%nat →
     ∃ w', run_jobs service fuel key rows w0
           = (Ok tt, log (Results (List.length rows) 0) w') ∧
           jobs_in_progress w' = []) ∧
  (∀ fuel w0 counts w',
     polls_succeed service key →
     run_counts service fuel key rows w0 = (Ok counts, w') →
     counts.1 + counts.2 = List.length rows ∧
     jobs_in_progress w' = [] ∧
     run_jobs service fuel key rows w0
     = (Ok tt, log (Results (List.length rows) counts.2) w')).
Proof.
  split.
  - intros bound fuel w0 Hrows Hgood Hfuel.
    destruct fuel as [|fuel]; [lia|]. rewrite run_jobs_unfold.
    destruct (submit_all_good key bound Hgood fuel rows Hrows 0 0 (with_jobs [] w0))
      as (c & w & Hsubmit & Hid & Hsum); [by apply Forall_nil|].
    unfold yield_jobs. rewrite Hsubmit.
    destruct (drain_good key bound Hgood bound (S fuel) c w Hid) as (w' & -> & Hnil);
      [lia|lia|].
    exists w'. split; [|done]. simpl in *.
    by replace (c + List.length (jobs_in_progress w) + 0)
      with (List.length rows) by lia.
  - intros fuel w0 counts w' Hpolls Hrun.
    assert (Hrun' := Hrun). unfold run_counts, bind, new_deque in Hrun'.
    destruct (submit_all _ _ _ _ _ _) as [[c1| |] w1] eqn:Hsubmit; [|done..].
    apply (submit_all_accounts fuel key rows Hpolls) in Hsubmit.
    apply drain_accounts in Hrun' as [Hnil Hsum]. simpl in *.
    assert (Htotal : counts.1 + counts.2 = List.length rows) by lia.
    split_and!; [done..|].
    unfold run_jobs, bind. by rewrite Hrun, Htotal.
Qed.

End Driver.

(** ** The scenarios *)

Lemma steady_service_obliging bound : obliging (steady_service bound) "key" bound.
Proof.
  split_and!.
  - intros n req. split; [reflexivity|].
    eexists _, _. split; vm_compute; reflexivity.
  - intros n job_id. unfold steady_service.
    destruct (bound <=? n)%nat; (split; [reflexivity|]);
      (split; [eexists; vm_compute; reflexivity|]);
      [left|right]; vm_compute; reflexivity.
  - intros n job_id Hle. unfold steady_service.
    destruct (Nat.leb_spec bound n); [|lia]. vm_compute. reflexivity.
Qed.

Lemma sample_row_well_formed : well_formed [sample_row].
Proof. apply Forall_singleton. eexists. vm_compute. reflexivity. Qed.

Lemma run_accounts_for_every_record_witness :
  ∃ w', run_jobs (steady_service 2) 4 "key" [sample_row] initial_world
        = (Ok tt, log (Results 1 0) w') ∧
        jobs_in_progress w' = [].
Proof.
  refine (proj1 (run_accounts_for_every_record (steady_service 2) "key"
                   [sample_row]) 2 4 initial_world _ _ _).
  - exact sample_row_well_formed.
  - exact (steady_service_obliging 2).
  - lia.
Defined.

Lemma forever_running_step w :
  jobs_in_progress w = [job_in_progress 1 "J1" "running"] →
  ∃ w', clean_completed forever_running "key" w = (Ok (0, 0), w') ∧
        jobs_in_progress w' = [job_in_progress 1 "J1" "running"].
Proof.
  intros Hq. rewrite clean_completed_unfold, Hq. cbn [List.length clean_loop].
  unfold bind.
  rewrite (clean_one_unfold forever_running "key" (0, 0) w []
             (job_in_progress 1 "J1" "running") Hq).
  exists (with_jobs [job_in_progress 1 "J1" "running"]
            (exchanged (GetActivity "key" (PStr "J1")) (with_jobs [] w))).
  split; vm_compute; reflexivity.
Qed.

Lemma forever_running_drain fuel :
  ∀ counts w,
    jobs_in_progress w = [job_in_progress 1 "J1" "running"] →
    (drain forever_running fuel "key" counts w).1 = OutOfFuel.
Proof.
  induction fuel as [|fuel IH]; intros counts w Hq; [reflexivity|].
  rewrite drain_unfold, Hq.
  destruct (forever_running_step w Hq) as (w' & -> & Hq').
  by apply IH.
Qed.

(** C1 as stated fails: one well-formed record, no rate limit, no failure,
    no error status, and the run never ends, because the job is reported
    running for ever. *)
Lemma run_never_ends_while_job_runs :
  well_formed [sample_row] ∧
  (∀ n rq, is_http_error (forever_running n rq) = false) ∧
  (∀ n key job_id,
     verdict (read_response_body (forever_running n (GetActivity key job_id)))
     = Some Pending) ∧
  (∀ fuel,
     (run_jobs forever_running fuel "key" [sample_row] initial_world).1
     = OutOfFuel).
Proof.
  split_and!; [exact sample_row_well_formed|by intros n []| |].
  { intros n key job_id. vm_compute. reflexivity. }
  intros [|fuel]; [vm_compute; reflexivity|]. rewrite run_jobs_unfold.
  assert (Hsubmit :
    submit_all forever_running (S fuel) "key" (yield_jobs [sample_row])
      (0, 0) (with_jobs [] initial_world)
    = (Ok (0, 0),
       mkWorld 2 [Sent (GetActivity "key" (PStr "J1"));
                  JobSubmitted (PStr "J1") 1;
                  Sent (PostArchive "key" sample_request)]
               [job_in_progress 1 "J1" "running"])).
  { vm_compute. reflexivity. }
  rewrite Hsubmit.
  assert (H := forever_running_drain (S fuel) (0, 0)
                 (mkWorld 2 [Sent (GetActivity "key" (PStr "J1"));
                     JobSubmitted (PStr "J1") 1;
                     Sent (PostArchive "key" sample_request)]
                  [job_in_progress 1 "J1" "running"]) eq_refl).
  by destruct (drain _ _ _ _ _) as [[| |] ?].
Qed.





(** The first scenario of the spec: one record, the job running at its
    first poll and complete with 42 rows at the second; one completion
    notice, one job run, no error. *)
Example one_job_scenario :
  run_jobs one_job_service 2 "key" [sample_row] initial_world
  = (Ok tt,
     mkWorld 3 [Results 1 0; Slept 10;
                JobComplete (PStr "J1") (PInt 42) (PInt 1);
                Sent (GetActivity "key" (PStr "J1"));
                Sent (GetActivity "key" (PStr "J1"));
                JobSubmitted (PStr "J1") 1;
                Sent (PostArchive "key" sample_request)] []).
Proof. vm_compute. reflexivity. Qed.

(** The second scenario of the spec: a 429 with [Retry-After: 2], then
    success; one submission notice, a wait of 2 seconds, no error. *)
Example rate_limited_scenario :
  run_jobs two_then_accepted 2 "key" [sample_row] initial_world
  = (Ok tt,
     mkWorld 3 [Results 1 0;
                JobComplete (PStr "J1") (PInt 0) (PInt 0);
                Sent (GetActivity "key" (PStr "J1"));
                JobSubmitted (PStr "J1") 1;
                Sent (PostArchive "key" sample_request);
                Slept 2;
                Sent (PostArchive "key" sample_request)] []).
Proof. vm_compute. reflexivity. Qed.

(** A poll that fails in the loop that submits takes the counts of its sweep
    with it: of two records, one job complete and one whose poll failed, the
    summary has one job run and one error. *)
Example lost_completion_scenario :
  (run_jobs second_poll_fails_service 1 "key" [sample_row; sample_row]
     initial_world).1 = Ok tt ∧
  head (trace (run_jobs second_poll_fails_service 1 "key"
                 [sample_row; sample_row] initial_world).2)
  = Some (Results 1 1).
Proof. split; vm_compute; reflexivity. Qed.

(** * Further properties *)

(** ** Header names and requests *)

Lemma no_separator_squeeze k : no_separator (squeeze k) = true.
Proof.
  induction k as [|c k IH]; [done|]. rewrite squeeze_cons.
  destruct (is_separator c) eqn:E; [done|].
  simpl. by rewrite is_separator_lower, E.
Qed.

Lemma squeeze_not_spelled k s : no_separator s = false → squeeze k ≠ s.
Proof. intros Hs Heq. by rewrite <- Heq, no_separator_squeeze in Hs. Qed.

(** X1: which header names stand for which field.  A header is read as one
    of the three two-word fields exactly when, in lower case and without
    separators, it is the name run together; as [location], [format] or
    [units] exactly when it is that word; and any other header is only
    lower-cased and stripped of its separators. *)
Theorem normalize_key_recognizes k :
  (normalize_key k = "start_date_time" ↔ squeeze k = "startdatetime") ∧
  (normalize_key k = "end_date_time" ↔ squeeze k = "enddatetime") ∧
  (normalize_key k = "results_location" ↔ squeeze k = "resultslocation") ∧
  (normalize_key k = "location" ↔ squeeze k = "location") ∧
  (normalize_key k = "format" ↔ squeeze k = "format") ∧
  (normalize_key k = "units" ↔ squeeze k = "units") ∧
  (squeeze k ∉ ["startdatetime"; "enddatetime"; "resultslocation"] →
   normalize_key k = squeeze k ∧ no_separator (normalize_key k) = true).
Proof.
  rewrite normalize_key_squeeze.
  assert (H1 := squeeze_not_spelled k "start_date_time" eq_refl).
  assert (H2 := squeeze_not_spelled k "end_date_time" eq_refl).
  assert (H3 := squeeze_not_spelled k "results_location" eq_refl).
  unfold canonical_names. rewrite !lookup_insert, lookup_empty.
  split_and!; try (repeat case_decide; simpl; split; congruence).
  intros Hnot. rewrite !elem_of_cons, elem_of_nil in Hnot.
  repeat case_decide; simpl; try (exfalso; apply Hnot; by eauto).
  split; [done|]. apply no_separator_squeeze.
Qed.

Lemma normalize_key_recognizes_witness :
  normalize_key "Some-Other Column" = squeeze "Some-Other Column" ∧
  no_separator (normalize_key "Some-Other Column") = true.
Proof.
  refine (proj2 (proj2 (proj2 (proj2 (proj2 (proj2
            (normalize_key_recognizes "Some-Other Column")))))) _).
  eapply (bool_decide_unpack _). vm_compute. reflexivity.
Defined.

Lemma lookup_normalized_from (row : Row) field :
  ∀ m : gmap string pyval,
    Forall (λ kv, column_name kv ≠ field) row →
    foldl (λ m kv, <[normalize_key kv.1 := kv.2]> m) m row !! field = m !! field.
Proof.
  induction row as [|kv row IH]; intros m Hall; [done|].
  apply Forall_cons in Hall as [Hkv Hall]. simpl.
  rewrite (IH _ Hall). by apply lookup_insert_ne.
Qed.

(** The value under a name in the normalized record is the cell of the last
    column of that name. *)
Lemma lookup_normalized_row (pre post : Row) k v :
  Forall (λ kv, column_name kv ≠ normalize_key k) post →
  normalized_row (pre ++ (k, v) :: post) !! normalize_key k = Some v.
Proof.
  intros Hpost. unfold normalized_row. rewrite foldl_app. simpl.
  rewrite (lookup_normalized_from post _ _ Hpost). apply lookup_insert_eq.
Qed.

Lemma new_ArchiveRequest_field (kwargs : gmap string pyval) req field :
  new_ArchiveRequest kwargs = Ok req →
  field ∈ ArchiveRequest_fields →
  field_value req field = kwargs !! field.
Proof.
  unfold new_ArchiveRequest. case_decide as Hall; [|done].
  destruct (kwargs !! "start_date_time") as [a|] eqn:Ha; [|done].
  destruct (kwargs !! "end_date_time") as [b|] eqn:Hb; [|done].
  destruct (kwargs !! "location") as [c|] eqn:Hc; [|done].
  destruct (kwargs !! "format") as [d|] eqn:Hd; [|done].
  destruct (kwargs !! "units") as [e|] eqn:He; [|done].
  destruct (kwargs !! "results_location") as [f|] eqn:Hf; [|done].
  intros [= <-]. unfold ArchiveRequest_fields.
  rewrite !elem_of_cons, elem_of_nil.
  intros [->|[->|[->|[->|[->|[->|[]]]]]]]; by simpl.
Qed.

(** X2: the request carries the cells of the record, each field the cell of
    the column of that name; of several columns whose headers normalize to
    the same field the last one wins, as in the [dict] that [to_request]
    fills. *)
Theorem to_request_takes_last_column (pre post : Row) k v req :
  to_request (pre ++ (k, v) :: post) = Ok req →
  Forall (λ kv, column_name kv ≠ normalize_key k) post →
  field_value req (normalize_key k) = Some v.
Proof.
  intros Hreq Hpost. unfold to_request in Hreq.
  assert (Hfield : normalize_key k ∈ ArchiveRequest_fields).
  { apply elem_of_required_fields.
    rewrite <- (new_ArchiveRequest_sound _ _ Hreq), dom_normalized_row.
    unfold header_names. apply elem_of_list_to_set, list_elem_of_fmap.
    exists (k, v). split; [done|]. apply elem_of_app. right. by left. }
  rewrite (new_ArchiveRequest_field _ _ _ Hreq Hfield).
  by apply lookup_normalized_row.
Qed.

Lemma normalized_from_permutation (row row' : Row) :
  row ≡ₚ row' →
  NoDup (column_name <$> row) →
  ∀ m : gmap string pyval,
    foldl (λ m kv, <[normalize_key kv.1 := kv.2]> m) m row
    = foldl (λ m kv, <[normalize_key kv.1 := kv.2]> m) m row'.
Proof.
  induction 1 as [|kv row row' Hperm IH|kv1 kv2 row|row1 row2 row3 H12 IH12 H23 IH23];
    intros Hnodup m.
  - done.
  - simpl. apply IH. by apply NoDup_cons in Hnodup as [_ ?].
  - simpl. f_equal. apply insert_insert_ne.
    rewrite !fmap_cons in Hnodup. apply NoDup_cons in Hnodup as [Hnot _].
    intros Heq. apply Hnot. unfold column_name.
    first [rewrite Heq|rewrite <- Heq]; by left.
  - rewrite IH12 by done. apply IH23.
    by rewrite <- (fmap_Permutation column_name _ _ H12).
Qed.

(** X3: the order of the columns does not matter: two records with the same
    columns in two orders, no two headers normalizing to the same name,
    convert alike, to the same request or the same error. *)
Theorem to_request_column_order (row row' : Row) :
  row ≡ₚ row' →
  NoDup (column_name <$> row) →
  to_request row = to_request row'.
Proof.
  intros Hperm Hnodup. unfold to_request, normalized_row.
  by rewrite (normalized_from_permutation row row' Hperm Hnodup).
Qed.

Lemma post_payload_lookup req name :
  name ∈ api_names →
  post_payload req !! name = field_value req (normalize_key name).
Proof.
  unfold api_names. rewrite !elem_of_cons, elem_of_nil.
  intros [->|[->|[->|[->|[->|[->|[]]]]]]]; by vm_compute.
Qed.

(** X4: from the record to the payload.  [post] sends the six names of the
    API and nothing else, and under each of them the cell of the last column
    whose header normalizes like that name: whatever the spelling of the
    header, the cell reaches the service under the name the API expects. *)
Theorem post_payload_of_record (pre post_ : Row) k v req name :
  to_request (pre ++ (k, v) :: post_) = Ok req →
  Forall (λ kv, column_name kv ≠ normalize_key k) post_ →
  name ∈ api_names →
  normalize_key name = normalize_key k →
  post_payload req !! name = Some v ∧
  dom (post_payload req) = list_to_set api_names.
Proof.
  intros Hreq Hpost Hname Heq. split.
  - rewrite (post_payload_lookup req name Hname), Heq.
    by eapply to_request_takes_last_column.
  - unfold post_payload. rewrite !dom_insert_L, dom_empty_L.
    eapply (bool_decide_unpack _). by vm_compute.
Qed.

Lemma to_request_takes_last_column_witness :
  field_value sample_request "start_date_time" = Some (PStr "2022-01-01").
Proof.
  refine (to_request_takes_last_column
            [("start date time", PStr "1999-12-31")] (tail sample_row)
            "startDateTime" (PStr "2022-01-01") sample_request _ _).
  - vm_compute. reflexivity.
  - eapply (bool_decide_unpack _). vm_compute. reflexivity.
Defined.

Lemma to_request_column_order_witness :
  to_request (reverse sample_row) = to_request sample_row.
Proof.
  refine (to_request_column_order (reverse sample_row) sample_row _ _).
  - apply reverse_Permutation.
  - eapply (bool_decide_unpack _). vm_compute. reflexivity.
Defined.

Lemma post_payload_of_record_witness :
  post_payload sample_request !! "startDateTime" = Some (PStr "2022-01-01") ∧
  dom (post_payload sample_request) = list_to_set api_names.
Proof.
  refine (post_payload_of_record
            [("start date time", PStr "1999-12-31")] (tail sample_row)
            "Start_Date_Time" (PStr "2022-01-01") sample_request
            "startDateTime" _ _ _ _).
  - vm_compute. reflexivity.
  - eapply (bool_decide_unpack _). vm_compute. reflexivity.
  - eapply (bool_decide_unpack _). vm_compute. reflexivity.
  - vm_compute. reflexivity.
Defined.

(** ** Sweeps and submissions at their edges *)

Section Edges.

Variable service : Service.

(** X5: a job whose poll is answered with a snapshot of status ['error']
    adds one to the error count and prints one error notice, with the job id
    and the [error] of the snapshot, and leaves the deque.  A snapshot of
    that status without a job id or without an [error] makes the sweep raise
    the [KeyError] instead, the job being out of the deque already. *)
Theorem errored_job_counted_and_notified key counts w q job job_id d status :
  jobs_in_progress w = q ++ [job] →
  subscript (info job) "jobId" = Ok job_id →
  let rq := GetActivity key job_id in
  is_http_error (service (exchanges w) rq) = false →
  read_response_body (service (exchanges w) rq) = PDict d →
  d !! "jobStatus" = Some status →
  str_eq "error" status = true →
  clean_one service key counts w =
  match d !! "jobId", d !! "error" with
  | Some job_id', Some error =>
      (Ok (counts.1, S counts.2),
       log (JobErrored job_id' error) (exchanged rq (with_jobs q w)))
  | Some _, None => (Exn (KeyError "error"), exchanged rq (with_jobs q w))
  | None, _ => (Exn (KeyError "jobId"), exchanged rq (with_jobs q w))
  end.
Proof.
  intros Hq Hid rq Herr Hbody Hst He.
  assert (Hc : str_eq "complete" status = false).
  { destruct status; try done. unfold str_eq in He.
    apply String.eqb_eq in He. by subst. }
  rewrite (clean_one_unfold service key counts w q job Hq), Hid. cbn zeta.
  fold rq. rewrite Herr, Hbody. unfold verdict. simpl. rewrite Hst, Hc, He.
  rewrite notify_job_errored_unfold. simpl.
  destruct (d !! "jobId"); [|done]. simpl. by destruct (d !! "error").
Qed.

(** X6: a snapshot that is neither complete nor error is put back whatever
    else it holds, a job id or not.  A job in the deque whose snapshot has
    no job id makes the next turn raise ([KeyError], or [TypeError] if the
    snapshot is no dict) before any request is sent; the job has left the
    deque, and the sweep and the loop that waits for the last jobs end with
    that exception.  So a single job whose poll is answered 'still running'
    without a job id ends the run at the next sweep, after one poll and one
    wait. *)
Theorem job_without_id_stops_the_run key :
  (∀ counts w q job job_id d,
     jobs_in_progress w = q ++ [job] →
     subscript (info job) "jobId" = Ok job_id →
     let rq := GetActivity key job_id in
     is_http_error (service (exchanges w) rq) = false →
     read_response_body (service (exchanges w) rq) = PDict d →
     verdict (PDict d) = Some Pending →
     clean_one service key counts w
     = (Ok counts,
        with_jobs (set_info job (PDict d) :: q) (exchanged rq (with_jobs q w)))) ∧
  (∀ counts w q job e,
     jobs_in_progress w = q ++ [job] →
     subscript (info job) "jobId" = Exn e →
     (e = KeyError "jobId" ∨ e = TypeError) ∧
     clean_one service key counts w = (Exn e, with_jobs q w) ∧
     clean_completed service key w = (Exn e, with_jobs q w) ∧
     ∀ fuel, drain service (S fuel) key counts w = (Exn e, with_jobs q w)) ∧
  (∀ fuel counts w job job_id d,
     jobs_in_progress w = [job] →
     subscript (info job) "jobId" = Ok job_id →
     let rq := GetActivity key job_id in
     is_http_error (service (exchanges w) rq) = false →
     read_response_body (service (exchanges w) rq) = PDict d →
     verdict (PDict d) = Some Pending →
     d !! "jobId" = None →
     drain service (S (S fuel)) key counts w
     = (Exn (KeyError "jobId"),
        with_jobs [] (log (Slept 10) (exchanged rq (with_jobs [] w))))).
Proof.
  assert (Hput : ∀ counts w q job job_id d,
     jobs_in_progress w = q ++ [job] →
     subscript (info job) "jobId" = Ok job_id →
     let rq := GetActivity key job_id in
     is_http_error (service (exchanges w) rq) = false →
     read_response_body (service (exchanges w) rq) = PDict d →
     verdict (PDict d) = Some Pending →
     clean_one service key counts w
     = (Ok counts,
        with_jobs (set_info job (PDict d) :: q) (exchanged rq (with_jobs q w)))).
  { intros counts w q job job_id d Hq Hid rq Herr Hbody Hv.
    rewrite (clean_one_unfold service key counts w q job Hq), Hid. cbn zeta.
    fold rq. rewrite Herr, Hbody. simpl info. by rewrite Hv. }
  assert (Hstop : ∀ counts w q job e,
     jobs_in_progress w = q ++ [job] →
     subscript (info job) "jobId" = Exn e →
     (e = KeyError "jobId" ∨ e = TypeError) ∧
     clean_one service key counts w = (Exn e, with_jobs q w) ∧
     clean_completed service key w = (Exn e, with_jobs q w) ∧
     ∀ fuel, drain service (S fuel) key counts w = (Exn e, with_jobs q w)).
  { intros counts w q job e Hq Hid.
    assert (Hone : ∀ c, clean_one service key c w = (Exn e, with_jobs q w)).
    { intros c. by rewrite (clean_one_unfold service key c w q job Hq), Hid. }
    assert (Hsweep : clean_completed service key w = (Exn e, with_jobs q w)).
    { rewrite clean_completed_unfold, Hq, length_app. simpl.
      rewrite Nat.add_comm. cbn [Nat.add clean_loop]. unfold bind.
      by rewrite Hone. }
    split_and!; [by eapply subscript_exn|done|done|].
    intros fuel. rewrite drain_unfold, Hsweep, Hq. by destruct q. }
  split_and!; [exact Hput|exact Hstop|].
  intros fuel counts w job job_id d Hq Hid rq Herr Hbody Hv Hnone.
  assert (Hsweep : clean_completed service key w
                   = (Ok (0, 0),
                      with_jobs [set_info job (PDict d)]
                        (exchanged rq (with_jobs [] w)))).
  { rewrite clean_completed_unfold, Hq. cbn [List.length clean_loop].
    unfold bind.
    by rewrite (Hput (0, 0) w [] job job_id d Hq Hid Herr Hbody Hv). }
  rewrite drain_unfold, Hq, Hsweep.
  destruct (Hstop (counts.1 + (0, 0).1, counts.2 + (0, 0).2)
              (log (Slept 10) (with_jobs [set_info job (PDict d)]
                                 (exchanged rq (with_jobs [] w))))
              [] (set_info job (PDict d)) (KeyError "jobId"))
    as (_ & _ & _ & Hdrain); [done|simpl; by rewrite Hnone|].
  apply Hdrain.
Qed.

Lemma post_with_retry_answered fuel key req w :
  is_http_error (service (exchanges w) (PostArchive key req)) = false →
  post_with_retry service (S fuel) key req w
  = (subscript (read_response_body (service (exchanges w) (PostArchive key req)))
       "job",
     exchanged (PostArchive key req) w).
Proof. intros Herr. rewrite post_with_retry_unfold. cbn zeta. by rewrite Herr. Qed.

(** X7: a submission answered with success but without a job, or with a job
    without a job id, is not counted as an error: the [KeyError] (or
    [TypeError], when the body or the job is no dict) is not caught by the
    driver, which catches HTTP errors only.  Nothing is printed, the job
    does not enter the deque, no poll is made, and the records after it are
    not submitted. *)
Theorem accepted_without_job_or_id key job fuel counts w e :
  let rq := PostArchive key (request job) in
  let response := service (exchanges w) rq in
  is_http_error response = false →
  (subscript (read_response_body response) "job" = Exn e ∨
   ∃ snap, subscript (read_response_body response) "job" = Ok snap ∧
           subscript snap "jobId" = Exn e) →
  (e = KeyError "job" ∨ e = KeyError "jobId" ∨ e = TypeError) ∧
  submit_and_clean service (S fuel) key job counts w = (Exn e, exchanged rq w) ∧
  (∀ next rest,
     next w = (Ok job, w) →
     submit_all service (S fuel) key (next :: rest) counts w
     = (Exn e, exchanged rq w)).
Proof.
  intros rq response Herr Hbody.
  assert (He : e = KeyError "job" ∨ e = KeyError "jobId" ∨ e = TypeError).
  { destruct Hbody as [H|(snap & _ & H)];
      destruct (subscript_exn _ _ _ H); eauto. }
  assert (Hstep : submit_and_clean service (S fuel) key job counts w
                  = (Exn e, exchanged rq w)).
  { rewrite submit_and_clean_unfold, (post_with_retry_answered _ _ _ _ Herr).
    fold rq response.
    destruct Hbody as [->|(snap & -> & ->)];
      by destruct He as [->|[->| ->]]. }
  split_and!; [done..|].
  intros next rest Hnext. cbn [submit_all]. unfold bind.
  by rewrite Hnext, Hstep.
Qed.

End Edges.

(** ** Sweeps and runs as a whole *)

Section Runs.

Variable service : Service.

Lemma yield_jobs_from_app index (rows1 rows2 : list Row) :
  yield_jobs_from index (rows1 ++ rows2)
  = yield_jobs_from index rows1
    ++ yield_jobs_from (index + List.length rows1) rows2.
Proof.
  revert index. induction rows1 as [|row rows1 IH]; intros index; simpl.
  - by rewrite Nat.add_0_r.
  - rewrite IH. do 3 f_equal. lia.
Qed.

Lemma submit_all_app fuel key (jobs1 jobs2 : list (M Job)) :
  ∀ counts w,
    submit_all service fuel key (jobs1 ++ jobs2) counts w
    = bind (submit_all service fuel key jobs1 counts)
           (submit_all service fuel key jobs2) w.
Proof.
  induction jobs1 as [|next jobs1 IH]; intros counts w; [done|].
  cbn [app submit_all]. unfold bind.
  destruct (next w) as [[job| |] w1]; [|done..].
  destruct (submit_and_clean _ _ _ _ _ _) as [[c1| |] w2]; [|done..].
  by rewrite IH.
Qed.

(** X8: a record that does not convert ends the run where it stands.  The
    records before it have been submitted and swept as usual; the exception
    of the conversion leaves [run_jobs] uncaught, with the world as it was
    after the record before: no request for the record or for those after
    it, no summary, and the jobs in progress left in the deque. *)
Theorem malformed_record_ends_run fuel key (before after : list Row) bad e :
  to_request bad = Exn e →
  (∀ index counts w counts1 w1,
     submit_all service fuel key (yield_jobs_from index before) counts w
       = (Ok counts1, w1) →
     submit_all service fuel key
       (yield_jobs_from index (before ++ bad :: after)) counts w
     = (Exn e, w1)) ∧
  (∀ w0 counts1 w1,
     submit_all service fuel key (yield_jobs before) (0, 0) (with_jobs [] w0)
       = (Ok counts1, w1) →
     run_jobs service fuel key (before ++ bad :: after) w0 = (Exn e, w1)).
Proof.
  intros Hbad.
  assert (Hsubmit : ∀ index counts w counts1 w1,
     submit_all service fuel key (yield_jobs_from index before) counts w
       = (Ok counts1, w1) →
     submit_all service fuel key
       (yield_jobs_from index (before ++ bad :: after)) counts w
     = (Exn e, w1)).
  { intros index counts w counts1 w1 Hbefore.
    rewrite yield_jobs_from_app, submit_all_app. unfold bind at 1.
    rewrite Hbefore. cbn [yield_jobs_from submit_all]. unfold bind.
    by rewrite yield_job_unfold, Hbad. }
  split; [exact Hsubmit|].
  intros w0 counts1 w1 Hbefore. rewrite run_jobs_unfold. unfold yield_jobs.
  by rewrite (Hsubmit 0 (0, 0) (with_jobs [] w0) counts1 w1 Hbefore).
Qed.



(** What a turn of the sweep does to the deque, whatever becomes of it: it
    leaves it alone (when it is empty), or takes its rightmost job out and
    puts it back at the left, with its new snapshot, if that reads as
    neither complete nor error. *)
Lemma clean_one_deque key counts w r w' :
  clean_one service key counts w = (r, w') →
  (jobs_in_progress w = [] ∧ jobs_in_progress w' = []) ∨
  ∃ q job,
    jobs_in_progress w = q ++ [job] ∧
    (jobs_in_progress w' = q ∨
     ∃ snap, jobs_in_progress w' = set_info job snap :: q ∧ (∃ c, r = Ok c)).
Proof.
  destruct (snoc_cases (jobs_in_progress w)) as [Hq|(q & job & Hq)].
  - unfold clean_one, bind. rewrite (pop_empty w Hq). intros [= _ <-]. by left.
  - rewrite (clean_one_unfold service key counts w q job Hq).
    intros Hone. right. exists q, job. split; [done|]. revert Hone.
    destruct (subscript (info job) "jobId") as [job_id| |];
      [|intros [= _ <-]; by left..].
    cbn zeta. destruct (is_http_error _); [intros [= _ <-]; by left|].
    set (snap := read_response_body _). simpl info.
    destruct (verdict snap) as [[| |]|].
    + rewrite notify_job_complete_unfold.
      destruct (completion_notice _); [intros [= _ <-]; by left|].
      destruct (subscript _ "jobId"); intros [= _ <-]; by left.
    + rewrite notify_job_errored_unfold.
      destruct (error_notice _); [intros [= _ <-]; by left|].
      destruct (subscript _ "jobId"); intros [= _ <-]; by left.
    + intros [= <- <-]. right. exists snap. eauto.
    + destruct (subscript snap "jobStatus"); intros [= _ <-]; by left.
Qed.

Lemma clean_loop_stems key turns :
  ∀ counts w r w',
    clean_loop service key turns counts w = (r, w') →
    (List.length (jobs_in_progress w') ≤ List.length (jobs_in_progress w))%nat ∧
    ∀ job', job' ∈ jobs_in_progress w' →
            ∃ job, job ∈ jobs_in_progress w ∧ identity job' = identity job.
Proof.
  induction turns as [|turns IH]; intros counts w r w'.
  - intros [= _ <-]. split; [done|]. eauto.
  - cbn [clean_loop]. unfold bind.
    destruct (clean_one service key counts w) as [r1 w1] eqn:Hone.
    assert (Hstep :
      (List.length (jobs_in_progress w1) ≤ List.length (jobs_in_progress w))%nat ∧
      ∀ job', job' ∈ jobs_in_progress w1 →
              ∃ job, job ∈ jobs_in_progress w ∧ identity job' = identity job).
    { destruct (clean_one_deque _ _ _ _ _ Hone)
        as [[-> ->]|(q & job & -> & [->|(snap & -> & _)])].
      - split; [done|]. eauto.
      - split; [rewrite length_app; simpl; lia|].
        intros job' Hin. exists job'. split; [|done]. apply elem_of_app. by left.
      - split; [rewrite length_app; simpl; lia|].
        intros job' [->|Hin]%elem_of_cons.
        + exists job. split; [|done]. apply elem_of_app. right. by left.
        + exists job'. split; [|done]. apply elem_of_app. by left. }
    destruct Hstep as [Hlen Hstem].
    destruct r1 as [c1| |]; [|by intros [= _ <-]..].
    intros Hloop. destruct (IH _ _ _ _ Hloop) as [Hlen' Hstem'].
    split; [lia|]. intros job' Hin.
    destruct (Hstem' job' Hin) as (job1 & Hin1 & ->). by apply Hstem.
Qed.

(** X10: a sweep never adds a job, however it ends: the deque after it is no
    longer than before, and every job in it is a job that was there before
    (same line, same request), whatever its snapshot has become. *)
Theorem sweep_never_adds_jobs key w r w' :
  clean_completed service key w = (r, w') →
  (List.length (jobs_in_progress w') ≤ List.length (jobs_in_progress w))%nat ∧
  ∀ job', job' ∈ jobs_in_progress w' →
          ∃ job, job ∈ jobs_in_progress w ∧ identity job' = identity job.
Proof. rewrite clean_completed_unfold. apply clean_loop_stems. Qed.

Lemma sublist_rev {A} (l1 l2 : list A) :
  l1 `sublist_of` l2 → rev l1 `sublist_of` rev l2.
Proof.
  induction 1 as [|x l1 l2 _ IH|x l1 l2 _ IH]; simpl.
  - constructor.
  - by apply sublist_app.
  - by apply sublist_inserts_r.
Qed.

Lemma sublist_same_length {A} (l1 l2 : list A) :
  l1 `sublist_of` l2 → List.length l1 = List.length l2 → l1 = l2.
Proof.
  induction 1 as [|x l1 l2 _ IH|x l1 l2 Hsub _]; simpl; intros Hlen.
  - done.
  - f_equal. apply IH. lia.
  - apply sublist_length in Hsub. lia.
Qed.

Lemma fmap_rev {A B} (f : A → B) (l : list A) : f <$> rev l = rev (f <$> l).
Proof.
  induction l as [|x l IH]; [done|]. simpl. by rewrite fmap_app, IH.
Qed.

Lemma identity_requeued polls :
  identity <$> requeued polls
  = (identity ∘ polled) <$> filter (is_outcome Pending) polls.
Proof. unfold requeued. by rewrite <- list_fmap_compose. Qed.

(** X11: a sweep that returns keeps the jobs it leaves in the order they
    had: the jobs of the deque after it are, in the same order, some of the
    jobs of the deque before it; and if none of them has left, the counts
    are 0 and 0 and the deque holds the same jobs in the same order. *)
Theorem sweep_keeps_order key w counts w' :
  clean_completed service key w = (Ok counts, w') →
  (identity <$> jobs_in_progress w') `sublist_of` (identity <$> jobs_in_progress w) ∧
  (List.length (jobs_in_progress w') = List.length (jobs_in_progress w) →
   counts = (0, 0) ∧
   identity <$> jobs_in_progress w' = identity <$> jobs_in_progress w).
Proof.
  intros Hsweep.
  assert (Hsum := clean_completed_accounts service key w counts w' Hsweep).
  rewrite clean_completed_unfold in Hsweep.
  rewrite <- (length_rev (jobs_in_progress w)) in Hsweep.
  destruct (clean_loop_log service key (rev (jobs_in_progress w)) [] (0, 0) w
              counts w')
    as (polls & Hpolled & _ & _ & _ & Hq & _); [by rewrite app_nil_r|done|].
  simpl in Hq.
  assert (Hsub : (identity <$> jobs_in_progress w')
                 `sublist_of` (identity <$> jobs_in_progress w)).
  { rewrite <- (rev_involutive (jobs_in_progress w')),
            <- (rev_involutive (jobs_in_progress w)).
    rewrite (fmap_rev identity (rev (jobs_in_progress w'))),
            (fmap_rev identity (rev (jobs_in_progress w))).
    apply sublist_rev. rewrite Hq, <- Hpolled, identity_requeued.
    rewrite <- list_fmap_compose. apply fmap_sublist, sublist_filter. }
  split; [done|]. intros Hlen. split.
  - destruct counts as [c e]. simpl in Hsum. f_equal; lia.
  - apply sublist_same_length; [done|]. by rewrite !length_fmap.
Qed.

(** X12: the loop that waits for the last jobs returns only with an empty
    deque.  Started on an empty deque it does nothing at all; otherwise it
    has swept at least once and its last act is the wait of 10 seconds that
    follows every sweep, the one that emptied the deque included. *)
Theorem drain_waits_after_every_sweep fuel key counts w counts' w' :
  drain service fuel key counts w = (Ok counts', w') →
  jobs_in_progress w' = [] ∧
  (jobs_in_progress w = [] → counts' = counts ∧ w' = w) ∧
  (jobs_in_progress w ≠ [] → ∃ earlier, trace w' = Slept 10 :: earlier).
Proof.
  revert counts w. induction fuel as [|fuel IH]; intros counts w; [done|].
  rewrite drain_unfold.
  destruct (jobs_in_progress w) as [|job q] eqn:Hq.
  - intros [= <- <-]. by split_and!.
  - destruct (clean_completed service key w) as [[new| |] w1]; [|done..].
    intros Hrest. destruct (IH _ _ Hrest) as (Hnil & Hempty & Hmore).
    split_and!; [done|done|]. intros _.
    destruct (jobs_in_progress (log (Slept 10) w1)) as [|job1 q1] eqn:Hq1.
    + destruct (Hempty eq_refl) as [_ ->]. by eexists.
    + by apply Hmore.
Qed.

(** X13: the sweep that follows a submission polls the jobs that were in
    progress before it, oldest first, and the job just submitted after all of
    them: its requests are the polls of the first jobs of that sequence. *)
Theorem submitted_job_is_polled_last fuel key job w snap w1 job_id r w2 :
  post_with_retry service fuel key (request job) w = (Ok snap, w1) →
  subscript snap "jobId" = Ok job_id →
  clean_completed service key (enqueued job snap job_id w1) = (r, w2) →
  ∃ new m,
    trace w2 = new ++ JobSubmitted job_id (line_number job) :: trace w1 ∧
    Forall2 (poll_of key) (requests (rev new))
      (take m (rev (jobs_in_progress w) ++ [set_info job snap])).
Proof.
  intros Hpost Hid Hsweep.
  assert (Hjobs := post_with_retry_jobs service fuel key (request job) w).
  rewrite Hpost in Hjobs. simpl in Hjobs.
  rewrite clean_completed_unfold in Hsweep.
  rewrite <- (length_rev (jobs_in_progress _)) in Hsweep.
  destruct (clean_loop_requests service key _ [] _ _ _ _
              (eq_sym (app_nil_r _)) Hsweep) as (new & m & Htr & Hreq).
  exists new, m. split; [exact Htr|]. simpl in Hreq. by rewrite Hjobs in Hreq.
Qed.

Lemma clean_one_http_error_deque key counts w response w' :
  clean_one service key counts w = (Exn (HTTPError response), w') →
  ∃ q job, jobs_in_progress w = q ++ [job] ∧ jobs_in_progress w' = q.
Proof.
  intros Hone.
  destruct (clean_one_deque _ _ _ _ _ Hone)
    as [[Hq _]|(q & job & Hq & [Hq'|(snap & _ & c & Hc)])]; [|by eauto|done].
  unfold clean_one, bind in Hone. by rewrite (pop_empty w Hq) in Hone.
Qed.

(** A sweep that a failed poll aborts has taken at least that job out. *)
Lemma clean_loop_http_error_shrinks key turns :
  ∀ counts w response w',
    clean_loop service key turns counts w = (Exn (HTTPError response), w') →
    (List.length (jobs_in_progress w') < List.length (jobs_in_progress w))%nat.
Proof.
  induction turns as [|turns IH]; intros counts w response w'; [done|].
  cbn [clean_loop]. unfold bind.
  destruct (clean_one service key counts w) as [[c1|e|] w1] eqn:Hone; [| |done].
  - intros Hloop. apply IH in Hloop.
    destruct (clean_loop_stems key 1 counts w (Ok c1) w1) as [Hlen _]; [|lia].
    cbn [clean_loop]. unfold bind. by rewrite Hone.
  - intros [= -> <-].
    destruct (clean_one_http_error_deque _ _ _ _ _ Hone) as (q & job & -> & ->).
    rewrite length_app. simpl. lia.
Qed.

Lemma submit_and_clean_bound fuel key job counts w counts' w' :
  submit_and_clean service fuel key job counts w = (Ok counts', w') →
  (counts'.1 + counts'.2 + List.length (jobs_in_progress w')
   ≤ counts.1 + counts.2 + List.length (jobs_in_progress w) + 1)%nat.
Proof.
  rewrite submit_and_clean_unfold.
  assert (Hjobs := post_with_retry_jobs service fuel key (request job) w).
  destruct (post_with_retry _ _ _ _ _) as [[snap|e|] w1]; simpl in Hjobs; [| |done].
  - destruct (subscript snap "jobId") as [job_id| |]; [|done..].
    destruct (clean_completed _ _ _) as [[new|e|] w2] eqn:Hsweep; [| |done].
    + intros [= <- <-]. apply clean_completed_accounts in Hsweep.
      simpl in *. rewrite Hjobs in Hsweep. lia.
    + destruct e; try done. intros [= <- <-].
      apply clean_loop_http_error_shrinks in Hsweep.
      simpl in *. rewrite Hjobs in Hsweep. lia.
  - destruct e; try done. intros [= <- <-]. simpl. rewrite Hjobs. lia.
Qed.

Lemma submit_all_bound fuel key rows :
  ∀ index counts w counts' w',
    submit_all service fuel key (yield_jobs_from index rows) counts w
      = (Ok counts', w') →
    (counts'.1 + counts'.2 + List.length (jobs_in_progress w')
     ≤ counts.1 + counts.2 + List.length (jobs_in_progress w)
       + List.length rows)%nat.
Proof.
  induction rows as [|row rows IH]; intros index counts w counts' w'.
  - intros [= <- <-]. simpl. lia.
  - cbn [yield_jobs_from submit_all]. unfold bind at 1. rewrite yield_job_unfold.
    destruct (to_request row) as [req| |]; [|done..]. unfold bind.
    destruct (submit_and_clean _ _ _ _ _ _) as [[c1| |] w1] eqn:Hstep; [|done..].
    intros Hrest. apply IH in Hrest. apply submit_and_clean_bound in Hstep.
    simpl. lia.
Qed.

(** X15: whatever the service does, a run that ends with its summary never
    counts more jobs than there are records: completions plus errors is at
    most N, and the deque is empty.  (It is N when no poll fails; a poll
    that fails in the loop that submits loses the counts of its sweep.) *)
Theorem summary_never_overcounts fuel key rows w0 counts w' :
  run_counts service fuel key rows w0 = (Ok counts, w') →
  (counts.1 + counts.2 ≤ List.length rows)%nat ∧
  jobs_in_progress w' = [] ∧
  run_jobs service fuel key rows w0
  = (Ok tt, log (Results (counts.1 + counts.2) counts.2) w').
Proof.
  intros Hrun. assert (Hrun' := Hrun).
  unfold run_counts, bind, new_deque in Hrun'.
  destruct (submit_all _ _ _ _ _ _) as [[c1| |] w1] eqn:Hsubmit; [|done..].
  apply submit_all_bound in Hsubmit.
  apply drain_accounts in Hrun' as [Hnil Hsum]. simpl in *.
  split_and!; [lia|done|]. unfold run_jobs, bind. by rewrite Hrun.
Qed.

(** X16: a poll answered with success but with a body that has no
    [jobStatus], or that is no JSON object at all, makes the sweep raise
    [KeyError] or [TypeError] right after that request: the job has left the
    deque and the jobs after it are not polled.  The driver, which catches
    HTTP errors only, lets any such exception of a sweep end the run, in the
    loop that submits as well. *)
Theorem poll_without_status_ends_run key :
  (∀ turns counts w q job job_id e,
     jobs_in_progress w = q ++ [job] →
     subscript (info job) "jobId" = Ok job_id →
     let rq := GetActivity key job_id in
     is_http_error (service (exchanges w) rq) = false →
     subscript (read_response_body (service (exchanges w) rq)) "jobStatus"
       = Exn e →
     (e = KeyError "jobStatus" ∨ e = TypeError) ∧
     clean_loop service key (S turns) counts w
     = (Exn e, exchanged rq (with_jobs q w))) ∧
  (∀ fuel job counts w snap w1 job_id e w2,
     post_with_retry service fuel key (request job) w = (Ok snap, w1) →
     subscript snap "jobId" = Ok job_id →
     clean_completed service key (enqueued job snap job_id w1) = (Exn e, w2) →
     (∀ response, e ≠ HTTPError response) →
     submit_and_clean service fuel key job counts w = (Exn e, w2)).
Proof.
  split.
  - intros turns counts w q job job_id e Hq Hid rq Herr Hst.
    split; [by eapply subscript_exn|].
    cbn [clean_loop]. unfold bind.
    rewrite (clean_one_unfold service key counts w q job Hq), Hid. cbn zeta.
    fold rq. rewrite Herr. unfold verdict. simpl info. by rewrite Hst.
  - intros fuel job counts w snap w1 job_id e w2 Hpost Hid Hsweep Hnot.
    rewrite submit_and_clean_unfold, Hpost, Hid, Hsweep.
    destruct e; try done. by destruct (Hnot response).
Qed.

End Runs.

(** X14: the generator yields one job per record, in the order of the
    records and numbered from 1, each with an empty snapshot; making a job
    touches neither the service nor the deque, and a record that does not
    convert raises at the moment its job is asked for. *)
Theorem yield_jobs_numbers_records (rows : list Row) :
  List.length (yield_jobs rows) = List.length rows ∧
  ∀ (i : nat) row,
    rows !! i = Some row →
    ∃ step,
      yield_jobs rows !! i = Some step ∧
      ∀ w, step w
           = (match to_request row with
              | Ok req => Ok (mkJob (i + 1) req (PDict ∅))
              | Exn e => Exn e
              | OutOfFuel => OutOfFuel
              end, w).
Proof.
  unfold yield_jobs.
  assert (Hfrom : ∀ index,
    List.length (yield_jobs_from index rows) = List.length rows ∧
    ∀ (i : nat) row,
      rows !! i = Some row →
      ∃ step,
        yield_jobs_from index rows !! i = Some step ∧
        ∀ w, step w
             = (match to_request row with
                | Ok req => Ok (mkJob (index + i + 1) req (PDict ∅))
                | Exn e => Exn e
                | OutOfFuel => OutOfFuel
                end, w)).
  { induction rows as [|row0 rows IH]; intros index.
    - split; [done|]. intros i row Hi. by rewrite lookup_nil in Hi.
    - destruct (IH (S index)) as [Hlen Hnth]. split; [simpl; by rewrite Hlen|].
      intros [|i] row; simpl.
      + intros [= <-]. exists (yield_job index row0). split; [done|].
        intros w. rewrite yield_job_unfold, Nat.add_0_r.
        by destruct (to_request row0).
      + intros Hi. destruct (Hnth i row Hi) as (step & Hstep & Hrun).
        exists step. split; [done|]. intros w. rewrite Hrun.
        by replace (index + S i + 1) with (S index + i + 1) by lia. }
  apply (Hfrom 0).
Qed.

(** ** The further properties on the scenarios *)

Lemma errored_job_counted_and_notified_witness :
  clean_one error_service "key" (0, 0) two_in_progress
  = (Ok (0, 1),
     log (JobErrored (PStr "J1") (PStr "bad location"))
       (exchanged (GetActivity "key" (PStr "J1"))
          (with_jobs [job_in_progress 2 "J2" "running"] two_in_progress))).
Proof.
  exact (errored_job_counted_and_notified error_service "key" (0, 0)
           two_in_progress [job_in_progress 2 "J2" "running"]
           (job_in_progress 1 "J1" "running") (PStr "J1") errored_fields
           (PStr "error") eq_refl eq_refl eq_refl eq_refl eq_refl eq_refl).
Defined.

Lemma job_without_id_stops_the_run_witness :
  drain idless_service 2 "key" (0, 0) first_submitted
  = (Exn (KeyError "jobId"),
     with_jobs [] (log (Slept 10)
                     (exchanged (GetActivity "key" (PStr "J1"))
                        (with_jobs [] first_submitted)))).
Proof.
  refine (proj2 (proj2 (job_without_id_stops_the_run idless_service "key"))
            0 (0, 0) first_submitted
            (set_info first_job (job_snapshot "J1" "running")) (PStr "J1")
            idless_fields _ _ _ _ _ _); vm_compute; reflexivity.
Defined.

Lemma accepted_without_job_or_id_witness :
  submit_and_clean jobless_service 1 "key" first_job (0, 0) initial_world
  = (Exn (KeyError "job"),
     exchanged (PostArchive "key" sample_request) initial_world).
Proof.
  refine (proj1 (proj2 (accepted_without_job_or_id jobless_service "key"
                          first_job 0 (0, 0) initial_world (KeyError "job")
                          _ _))).
  - vm_compute. reflexivity.
  - left. vm_compute. reflexivity.
Defined.

Lemma malformed_record_ends_run_witness :
  run_jobs (steady_service 0) 1 "key"
    ([sample_row] ++ tail sample_row :: [sample_row]) initial_world
  = (Exn TypeError,
     (submit_all (steady_service 0) 1 "key" (yield_jobs [sample_row]) (0, 0)
        (with_jobs [] initial_world)).2).
Proof.
  refine (proj2 (malformed_record_ends_run (steady_service 0) 1 "key"
                   [sample_row] [sample_row] (tail sample_row) TypeError _)
            initial_world (1, 0) _ _); vm_compute; reflexivity.
Defined.




Lemma sweep_never_adds_jobs_witness :
  (List.length
     (jobs_in_progress
        (clean_completed poll_fails_service "key" first_submitted).2)
   ≤ List.length (jobs_in_progress first_submitted))%nat.
Proof.
  exact (proj1 (sweep_never_adds_jobs poll_fails_service "key" first_submitted
                  (Exn (HTTPError server_error))
                  (clean_completed poll_fails_service "key" first_submitted).2
                  eq_refl)).
Defined.

Lemma sweep_keeps_order_witness :
  (identity <$> jobs_in_progress
                  (clean_completed first_done_service "key" two_in_progress).2)
  `sublist_of` (identity <$> jobs_in_progress two_in_progress).
Proof.
  exact (proj1 (sweep_keeps_order first_done_service "key" two_in_progress
                  (1, 0)
                  (clean_completed first_done_service "key" two_in_progress).2
                  eq_refl)).
Defined.

Lemma drain_waits_after_every_sweep_witness :
  ∃ earlier,
    trace (drain (steady_service 0) 2 "key" (0, 0) first_submitted).2
    = Slept 10 :: earlier.
Proof.
  refine (proj2 (proj2 (drain_waits_after_every_sweep (steady_service 0) 2
                          "key" (0, 0) first_submitted (1, 0)
                          (drain (steady_service 0) 2 "key" (0, 0)
                             first_submitted).2 _)) _).
  - vm_compute. reflexivity.
  - vm_compute. intros H. discriminate H.
Defined.

Lemma submitted_job_is_polled_last_witness :
  ∃ new m,
    trace (clean_completed (steady_service 9) "key"
             (enqueued (mkJob 3 sample_request (PDict ∅))
                (job_snapshot "J1" "running") (PStr "J1")
                (exchanged (PostArchive "key" sample_request)
                   two_in_progress))).2
    = new ++ JobSubmitted (PStr "J1") 3
        :: trace (exchanged (PostArchive "key" sample_request) two_in_progress) ∧
    Forall2 (poll_of "key") (requests (rev new))
      (take m (rev (jobs_in_progress two_in_progress)
               ++ [set_info (mkJob 3 sample_request (PDict ∅))
                     (job_snapshot "J1" "running")])).
Proof.
  refine (submitted_job_is_polled_last (steady_service 9) 1 "key"
            (mkJob 3 sample_request (PDict ∅)) two_in_progress
            (job_snapshot "J1" "running")
            (exchanged (PostArchive "key" sample_request) two_in_progress)
            (PStr "J1") (Ok (0, 0)) _ _ _ _); vm_compute; reflexivity.
Defined.

Lemma yield_jobs_numbers_records_witness :
  ∃ step,
    yield_jobs [sample_row; sample_row] !! 1 = Some step ∧
    ∀ w, step w
         = (match to_request sample_row with
            | Ok req => Ok (mkJob (1 + 1) req (PDict ∅))
            | Exn e => Exn e
            | OutOfFuel => OutOfFuel
            end, w).
Proof.
  exact (proj2 (yield_jobs_numbers_records [sample_row; sample_row]) 1
           sample_row eq_refl).
Defined.

Lemma summary_never_overcounts_witness :
  (0 + 1 ≤ List.length [sample_row; sample_row])%nat.
Proof.
  refine (proj1 (summary_never_overcounts second_poll_fails_service 1 "key"
                   [sample_row; sample_row] initial_world (0, 1)
                   (run_counts second_poll_fails_service 1 "key"
                      [sample_row; sample_row] initial_world).2 _)).
  vm_compute. reflexivity.
Defined.

Lemma poll_without_status_ends_run_witness :
  clean_loop jobless_text_service "key" 2 (0, 0) two_in_progress
  = (Exn TypeError,
     exchanged (GetActivity "key" (PStr "J1"))
       (with_jobs [job_in_progress 2 "J2" "running"] two_in_progress)).
Proof.
  refine (proj2 (proj1 (poll_without_status_ends_run jobless_text_service "key")
                   1 (0, 0) two_in_progress [job_in_progress 2 "J2" "running"]
                   (job_in_progress 1 "J1" "running") (PStr "J1") TypeError
                   _ _ _ _)); vm_compute; reflexivity.
Defined.
